(** * The Earth Engine / pydeck example notebooks

    A shallow embedding of the three example notebooks
    ([py/examples/Introduction.ipynb], [py/examples/power_plants.ipynb] and the
    polygon notebook that follows it in the same file) and of the three
    functions they define ([Radians], [Hillshade], [add_style]).

    - Python values that the notebooks write down are [pyval]s.
    - Earth Engine client objects are descriptions of a server-side
      computation: every client method builds a bigger description and sends
      nothing.  They are the terms of [ee.ComputedObject].
    - The calls that reach the outside world (credential handling, widget
      objects, display) are actions of a small state-and-exception monad [M];
      each of them is recorded in a trace and may raise.
    - [eval] gives the descriptions their meaning over the real numbers.
    - The bodies of the three functions, as Python runs them, are sequences
      of calls to a [client]; the client that builds descriptions gives
      [Radians], [Hillshade] and [add_style] back. *)

From Stdlib Require Import String List ZArith QArith Reals Qreals Lra Lia Bool.
From stdpp Require Import gmap strings.
Import ListNotations.
Set Warnings "-register-all".
Local Open Scope string_scope.
Local Open Scope list_scope.

(** ** Python values *)

Inductive pyval :=
| PBool (b : bool)
| PInt (z : Z)
| PFloat (q : Q)                       (* a decimal literal, as written *)
| Pmath_pi                             (* [math.pi] *)
| PStr (s : string)
| PList (l : list pyval)
| PDict (d : list (string * pyval))    (* insertion-ordered, string keys *)
| PNone.                               (* [None] *)

Abbreviation dict := (list (string * pyval)).

(** [d.get(k)] on an insertion-ordered dictionary: the first binding of [k]. *)
Fixpoint dict_get {V : Type} (d : list (string * V)) (k : string) : option V :=
  match d with
  | [] => None
  | (k', v) :: d' => if String.eqb k' k then Some v else dict_get d' k
  end.

Definition keys {V : Type} (d : list (string * V)) : list string :=
  List.map fst d.

(** ** Exceptions

    [Exception cls] stands for an instance of [Exception] or of one of its
    subclasses, named by its class; the other three constructors are the
    built-in classes that derive from [BaseException] directly. *)

Inductive exn :=
| KeyboardInterrupt
| SystemExit
| GeneratorExit
| Exception (cls : string).

(** [isinstance(e, Exception)] *)
Definition isinstance_Exception (e : exn) : bool :=
  match e with
  | Exception _ => true
  | _ => false
  end.

(** ** Earth Engine client objects *)

Module ee.

Inductive ComputedObject :=
| lit (v : pyval)                                   (* a Python value, promoted by the client *)
| pydict (items : list (string * ComputedObject))   (* a Python dict of client objects *)
| var                                               (* the element a mapped function receives *)
| Image (arg : ComputedObject)                      (* ee.Image(...) *)
| FeatureCollection (arg : ComputedObject)          (* ee.FeatureCollection(...) *)
| Number (arg : ComputedObject)                     (* ee.Number(...) *)
| Dictionary (arg : ComputedObject)                 (* ee.Dictionary(...) *)
| Terrain (img : ComputedObject)                    (* ee.Algorithms.Terrain(...) *)
| Filter_eq (name : string) (v : pyval)             (* ee.Filter.eq(name, v) *)
| select (img : ComputedObject) (band : string)
| toFloat (x : ComputedObject)
| multiply (x y : ComputedObject)
| divide (x y : ComputedObject)
| subtract (x y : ComputedObject)
| add (x y : ComputedObject)
| sin (x : ComputedObject)
| cos (x : ComputedObject)
| sqrt (x : ComputedObject)
| get (obj key : ComputedObject)
| set (obj : ComputedObject) (key : string) (v : ComputedObject)
| mapped (coll body : ComputedObject)               (* coll.map(f), body = f(var) *)
| filter (coll flt : ComputedObject)
| style (coll : ComputedObject) (kwargs : dict).

(** [coll.map(f)]: the client calls [f] once, on the placeholder element. *)
Definition map (coll : ComputedObject) (f : ComputedObject -> ComputedObject)
  : ComputedObject :=
  mapped coll (f var).

End ee.

Coercion ee.lit : pyval >-> ee.ComputedObject.

(** ** The functions the notebooks define *)

(** Introduction.ipynb, hillshade cell. *)
Definition Radians (img : ee.ComputedObject) : ee.ComputedObject :=
  ee.divide (ee.multiply (ee.toFloat img) Pmath_pi) (PInt 180).

Definition Hillshade (az ze : pyval) (slope aspect : ee.ComputedObject)
  : ee.ComputedObject :=
  let azimuth := Radians (ee.Image az) in
  let zenith := Radians (ee.Image ze) in
  ee.add
    (ee.multiply
       (ee.multiply (ee.cos (ee.subtract azimuth aspect)) (ee.sin slope))
       (ee.sin zenith))
    (ee.multiply (ee.cos zenith) (ee.cos slope)).

(** power_plants.ipynb.  [add_style] reads the global [fuel_color]; the
    global is passed explicitly. *)
Definition add_style (fuel_color : ee.ComputedObject) (point : ee.ComputedObject)
  : ee.ComputedObject :=
  let size :=
    ee.add (ee.divide (ee.sqrt (ee.Number (ee.get point (PStr "capacitymw"))))
                      (PInt 10))
           (PInt 2) in
  let color := ee.get fuel_color (ee.get point (PStr "fuel1")) in
  ee.set point "styleProperty"
    (ee.Dictionary (ee.pydict [("pointSize", size); ("color", color)])).

(** ** The Earth Engine objects the notebooks bind to names

    These cells call nothing but the client's constructors and the functions
    above. *)

(** Introduction.ipynb *)
Definition image : ee.ComputedObject := ee.Image (PStr "CGIAR/SRTM90_V4").

Definition terrain : ee.ComputedObject :=
  ee.Terrain (ee.Image (PStr "srtm90_v4")).
Definition slope_img : ee.ComputedObject := Radians (ee.select terrain "slope").
Definition aspect_img : ee.ComputedObject := Radians (ee.select terrain "aspect").

(** power_plants.ipynb *)
Definition table : ee.ComputedObject :=
  ee.FeatureCollection (PStr "WRI/GPPD/power_plants").

Definition fuel_color_hex : dict :=
  [ ("Coal", PStr "000000");
    ("Oil", PStr "593704");
    ("Gas", PStr "BC80BD");
    ("Hydro", PStr "0565A6");
    ("Nuclear", PStr "E31A1C");
    ("Solar", PStr "FF7F00");
    ("Waste", PStr "6A3D9A");
    ("Wind", PStr "5CA2D1");
    ("Geothermal", PStr "FDBF6F");
    ("Biomass", PStr "229A00") ].

(** The first binding of the global [fuel_color]. *)
Definition fuel_color : ee.ComputedObject := ee.Dictionary (PDict fuel_color_hex).

Definition fuels : list string :=
  [ "Coal"; "Oil"; "Gas"; "Hydro"; "Nuclear"; "Solar"; "Waste";
    "Wind"; "Geothermal"; "Biomass" ].

(** [add_style] is handed to [map] while [fuel_color] is still the
    Earth Engine dictionary. *)
Definition pp : ee.ComputedObject :=
  ee.map (ee.FeatureCollection table) (add_style fuel_color).

Definition rgb (r g b : Z) : pyval := PList [PInt r; PInt g; PInt b].

(** The second binding of the global [fuel_color], a Python dict. *)
Definition fuel_color_rgb : dict :=
  [ ("Coal", rgb 0 0 0);
    ("Oil", rgb 89 55 4);
    ("Gas", rgb 188 128 189);
    ("Hydro", rgb 5 101 166);
    ("Nuclear", rgb 227 26 28);
    ("Solar", rgb 255 127 0);
    ("Waste", rgb 106 61 154);
    ("Wind", rgb 92 162 209);
    ("Geothermal", rgb 253 191 111);
    ("Biomass", rgb 34 154 0) ].

(** The polygon notebook *)
Definition dataset : ee.ComputedObject :=
  ee.FeatureCollection (PStr "USDOS/LSIB_SIMPLE/2017").

Definition countries : ee.ComputedObject :=
  ee.style dataset [("fillColor", PStr "b5ffb4"); ("color", PStr "00909F");
                    ("width", PInt 3)].

(** ** pydeck objects *)

Record EarthEngineLayer := mkLayer {
  layer_oid : nat;                     (* object identity *)
  ee_object : ee.ComputedObject;       (* the positional argument *)
  layer_kwargs : dict                  (* the keyword arguments, as passed *)
}.

Module pdk.

Record ViewState := mkViewState { view_kwargs : dict }.

Record Deck := mkDeck {
  deck_oid : nat;
  layers : list EarthEngineLayer;
  initial_view_state : ViewState
}.

End pdk.

(** ** The notebook monad *)

(** What reaches the outside world, in order. *)
Inductive event :=
| EvInitialize                          (* ee.Initialize() *)
| EvAuthenticate                        (* ee.Authenticate() *)
| EvLayer (l : EarthEngineLayer)        (* EarthEngineLayer(...) *)
| EvDeck (d : pdk.Deck)                 (* pdk.Deck(...) *)
| EvShow (d : pdk.Deck).                (* r.show() *)

(** The outside world is a script: the outcome of each successive outside
    call, [Some e] when it raises [e]; calls beyond the script succeed. *)
Record state := mkState {
  script : list (option exn);
  log : list event;                    (* most recent first *)
  next_oid : nat
}.

Inductive result (A : Type) :=
| Ok (a : A)
| Raise (e : exn).
Arguments Ok {A} a.
Arguments Raise {A} e.

Definition M (A : Type) : Type := state -> result A * state.

Definition ret {A} (a : A) : M A := fun st => (Ok a, st).

Definition bind {A B} (m : M A) (k : A -> M B) : M B := fun st =>
  match m st with
  | (Ok a, st') => k a st'
  | (Raise e, st') => (Raise e, st')
  end.

Definition raise {A} (e : exn) : M A := fun st => (Raise e, st).

Declare Scope nb_scope.
Delimit Scope nb_scope with nb.
Notation "x <- m ;; k" := (bind m (fun x => k))
  (at level 100, m at next level, right associativity) : nb_scope.
Notation "m ;; k" := (bind m (fun _ => k))
  (at level 100, right associativity) : nb_scope.
Local Open Scope nb_scope.

(** [try: body except Exception as e: handler].  What [body] did before it
    raised stays done; an exception outside the [Exception] hierarchy is not
    caught. *)
Definition try_except_Exception {A} (body : M A) (handler : exn -> M A) : M A :=
  fun st =>
    match body st with
    | (Raise e, st') =>
        if isinstance_Exception e then handler e st' else (Raise e, st')
    | r => r
    end.

(** An outside call: it is logged, consumes one outcome of the script, and
    returns [a] unless the script makes it raise. *)
Definition external {A} (ev : event) (a : A) : M A := fun st =>
  let st' := {| script := tl (script st);
                log := ev :: log st;
                next_oid := next_oid st |} in
  match script st with
  | Some e :: _ => (Raise e, st')
  | _ => (Ok a, st')
  end.

Definition fresh : M nat := fun st =>
  (Ok (next_oid st),
   {| script := script st; log := log st; next_oid := S (next_oid st) |}).

Definition ee_Initialize : M unit := external EvInitialize tt.
Definition ee_Authenticate : M unit := external EvAuthenticate tt.

Definition new_EarthEngineLayer (obj : ee.ComputedObject) (kw : dict)
  : M EarthEngineLayer :=
  o <- fresh ;;
  let l := {| layer_oid := o; ee_object := obj; layer_kwargs := kw |} in
  external (EvLayer l) l.

Definition new_Deck (ls : list EarthEngineLayer) (vs : pdk.ViewState)
  : M pdk.Deck :=
  o <- fresh ;;
  let d := {| pdk.deck_oid := o; pdk.layers := ls; pdk.initial_view_state := vs |} in
  external (EvDeck d) d.

Definition show (r : pdk.Deck) : M unit := external (EvShow r) tt.

(** [d[k]] on a Python dict. *)
Definition getitem (d : dict) (k : string) : M pyval :=
  match dict_get d k with
  | Some v => ret v
  | None => raise (Exception "KeyError")
  end.

(** [for x in xs: body], threading the variables the body rebinds. *)
Fixpoint for_in {A S : Type} (xs : list A) (body : A -> S -> M S) (s : S) : M S :=
  match xs with
  | [] => ret s
  | x :: xs' => s' <- body x s ;; for_in xs' body s'
  end.

(** Running a notebook top to bottom against a script: the outcome and the
    trace, oldest call first. *)
Definition run {A} (m : M A) (s : list (option exn)) : result A * list event :=
  let (r, st) := m {| script := s; log := []; next_oid := 0 |} in
  (r, rev (log st)).

Definition outcome {A} (m : M A) (s : list (option exn)) : result A := fst (run m s).
Definition trace {A} (m : M A) (s : list (option exn)) : list event := snd (run m s).

(** ** The notebooks *)

(** The credential cell of power_plants.ipynb and of the polygon notebook. *)
Definition init_retry : M unit :=
  try_except_Exception
    ee_Initialize
    (fun e => ee_Authenticate ;; ee_Initialize).

Definition Introduction_nb : M unit :=
  ee_Authenticate ;;
  ee_Initialize ;;
  ee_layer <- new_EarthEngineLayer image
                [("vis_params", PDict [("min", PInt 0); ("max", PInt 255)])] ;;
  let view_state :=
    pdk.mkViewState [("latitude", PFloat (377749295 # 10000000));
                     ("longitude", PFloat (-1224194155 # 10000000));
                     ("zoom", PInt 10); ("bearing", PInt 0); ("pitch", PInt 45)] in
  r <- new_Deck [ee_layer] view_state ;;
  show r ;;
  let ee_object := Hillshade (PInt 0) (PInt 60) slope_img aspect_img in
  ee_layer <- new_EarthEngineLayer ee_object [] ;;
  let view_state :=
    pdk.mkViewState [("latitude", PFloat (360756 # 10000));
                     ("longitude", PFloat (-1119987 # 10000));
                     ("zoom", PInt 7); ("bearing", PInt 0); ("pitch", PInt 30)] in
  r <- new_Deck [ee_layer] view_state ;;
  show r.

Definition power_plants_nb : M unit :=
  init_retry ;;
  layers <- for_in fuels (fun fuel layers =>
      layer <- new_EarthEngineLayer
                 (ee.style (ee.filter pp (ee.Filter_eq "fuel1" (PStr fuel)))
                           [("styleProperty", PStr "styleProperty");
                            ("neighborhood", PInt 50)])
                 [("id", PStr fuel); ("opacity", PFloat (65 # 100))] ;;
      ret (layers ++ [layer])) [] ;;
  let view_state :=
    pdk.mkViewState [("latitude", PInt 36); ("longitude", PInt (-53));
                     ("zoom", PInt 3)] in
  r <- new_Deck layers view_state ;;
  show r ;;
  let fuel_color := fuel_color_rgb in
  layers <- for_in fuels (fun fuel layers =>
      color <- getitem fuel_color fuel ;;
      layer <- new_EarthEngineLayer
                 (ee.filter table (ee.Filter_eq "fuel1" (PStr fuel)))
                 [("vis_params", PDict []);
                  ("getRadius", PStr ".properties.capacitymw ** 1.35");
                  ("lineWidthMinPixels", PFloat (5 # 10));
                  ("pointRadiusMinPixels", PInt 2);
                  ("get_fill_color", color);
                  ("selectors", PList [PStr "capacitymw"]);
                  ("as_vector", PBool true);
                  ("id", PStr fuel);
                  ("opacity", PFloat (65 # 100))] ;;
      ret (layers ++ [layer])) [] ;;
  let view_state :=
    pdk.mkViewState [("latitude", PInt 36); ("longitude", PInt (-53));
                     ("zoom", PInt 3)] in
  r <- new_Deck layers view_state ;;
  show r.

Definition intl_boundary_nb : M unit :=
  init_retry ;;
  layer <- new_EarthEngineLayer countries [("id", PStr "international_boundaries")] ;;
  let view_state :=
    pdk.mkViewState [("latitude", PInt 36); ("longitude", PInt 10);
                     ("zoom", PInt 3)] in
  r <- new_Deck [layer] view_state ;;
  show r.

Inductive notebook := Introduction | power_plants | intl_boundary.

Definition program (nb : notebook) : M unit :=
  match nb with
  | Introduction => Introduction_nb
  | power_plants => power_plants_nb
  | intl_boundary => intl_boundary_nb
  end.

(** The runs that credentials decide: stored credentials (every call
    succeeds) and, where the fallback exists, a first initialization that
    fails followed by a successful interactive authentication. *)
Definition stored_credentials : list (option exn) := [].
Definition no_credentials : list (option exn) := [Some (Exception "EEException")].

Definition completed_traces (nb : notebook) : list (list event) :=
  match nb with
  | Introduction => [trace Introduction_nb stored_credentials]
  | power_plants => [trace power_plants_nb stored_credentials;
                     trace power_plants_nb no_credentials]
  | intl_boundary => [trace intl_boundary_nb stored_credentials;
                      trace intl_boundary_nb no_credentials]
  end.

(** ** What the descriptions mean

    The service evaluates a description lazily, for one pixel of an image or
    one element of a collection.  Numbers are idealised as reals: [toFloat]
    is the identity and [math.pi] is the number pi.  An operation applied
    outside its domain yields [VError], which poisons what consumes it but
    not the element that merely stores it. *)

Inductive value :=
| VError
| VNull
| VBool (b : bool)
| VNum (x : R)
| VStr (s : string)
| VList (l : list value)
| VDict (items : list (string * value)).

Inductive geometry := Point (lon lat : R).

Record feature := mkFeature {
  geometry_of : geometry;
  properties : gmap string value
}.

Inductive denot :=
| DValue (v : value)
| DBands (b : string -> R)             (* a multi-band image, at the pixel *)
| DFeature (f : feature).

Record env := mkEnv {
  asset : string -> R;                 (* the pixel's value in a named image asset *)
  terrain_band : string -> R;          (* the pixel's terrain bands: slope, aspect, ... *)
  element : feature                    (* the element a mapped function receives *)
}.

Fixpoint of_py (v : pyval) : value :=
  match v with
  | PBool b => VBool b
  | PInt z => VNum (IZR z)
  | PFloat q => VNum (Q2R q)
  | Pmath_pi => VNum PI
  | PStr s => VStr s
  | PList l => VList (List.map of_py l)
  | PDict d => VDict (List.map (fun kv => (fst kv, of_py (snd kv))) d)
  | PNone => VNull
  end.

Definition as_value (d : denot) : value :=
  match d with
  | DValue v => v
  | _ => VError
  end.

Definition unary (f : R -> R) (a : denot) : denot :=
  match a with
  | DValue (VNum x) => DValue (VNum (f x))
  | _ => DValue VError
  end.

Definition binary (f : R -> R -> R) (a b : denot) : denot :=
  match a, b with
  | DValue (VNum x), DValue (VNum y) => DValue (VNum (f x y))
  | _, _ => DValue VError
  end.

Fixpoint eval (rho : env) (t : ee.ComputedObject) : denot :=
  match t with
  | ee.lit v => DValue (of_py v)
  | ee.pydict items =>
      DValue (VDict (List.map (fun kt => (fst kt, as_value (eval rho (snd kt)))) items))
  | ee.var => DFeature (element rho)
  | ee.Image a =>
      match eval rho a with
      | DValue (VNum x) => DValue (VNum x)             (* a constant image *)
      | DValue (VStr id) => DValue (VNum (asset rho id))
      | _ => DValue VError
      end
  | ee.Number a => unary (fun x => x) (eval rho a)
  | ee.Dictionary a =>
      match eval rho a with
      | DValue (VDict d) => DValue (VDict d)
      | _ => DValue VError
      end
  | ee.Terrain _ => DBands (terrain_band rho)
  | ee.select img band =>
      match eval rho img with
      | DBands b => DValue (VNum (b band))
      | _ => DValue VError
      end
  | ee.toFloat x => unary (fun x => x) (eval rho x)
  | ee.multiply x y => binary Rmult (eval rho x) (eval rho y)
  | ee.divide x y => binary Rdiv (eval rho x) (eval rho y)
  | ee.subtract x y => binary Rminus (eval rho x) (eval rho y)
  | ee.add x y => binary Rplus (eval rho x) (eval rho y)
  | ee.sin x => unary sin (eval rho x)
  | ee.cos x => unary cos (eval rho x)
  | ee.sqrt x => unary sqrt (eval rho x)
  | ee.get obj key =>
      match eval rho obj, eval rho key with
      | DFeature f, DValue (VStr k) =>
          DValue (match properties f !! k with Some v => v | None => VNull end)
      | DValue (VDict d), DValue (VStr k) =>
          DValue (match dict_get d k with Some v => v | None => VError end)
      | _, _ => DValue VError
      end
  | ee.set obj k v =>
      match eval rho obj with
      | DFeature f =>
          DFeature {| geometry_of := geometry_of f;
                      properties := <[k := as_value (eval rho v)]> (properties f) |}
      | _ => DValue VError
      end
  | ee.FeatureCollection _ | ee.Filter_eq _ _ | ee.mapped _ _
  | ee.filter _ _ | ee.style _ _ => DValue VError   (* whole collections: not a pixel or element value *)
  end.

(** The reference formulas, as the comment of [Hillshade] and the
    specification word them. *)
Definition radians (x : R) : R := (x * PI / 180)%R.

Definition hillshade_reference (az ze slope aspect : R) : R :=
  (cos (radians az - aspect) * sin slope * sin (radians ze)
   + cos (radians ze) * cos slope)%R.


(** ** Observations on runs *)

Definition has_fallback (nb : notebook) : bool :=
  match nb with
  | Introduction => false
  | power_plants | intl_boundary => true
  end.

Definition is_Initialize (ev : event) : bool :=
  match ev with EvInitialize => true | _ => false end.

Definition is_Authenticate (ev : event) : bool :=
  match ev with EvAuthenticate => true | _ => false end.

(** How many calls of a kind a trace holds. *)
Fixpoint calls (p : event -> bool) (tr : list event) : nat :=
  match tr with
  | [] => 0
  | ev :: tr' => (if p ev then 1 else 0) + calls p tr'
  end.

(** What the script holds for the next outside call: [Some e] when it raises. *)
Definition next_outcome (s : list (option exn)) : option exn :=
  match s with
  | Some e :: _ => Some e
  | _ => None
  end.

(** The credential step: either call of the Earth Engine client that talks
    to the service about credentials. *)
Definition is_auth (ev : event) : Prop := ev = EvInitialize \/ ev = EvAuthenticate.

(** The calls of a run, each with what the script made of it: the i-th
    outside call reads the i-th outcome of the script, and calls beyond the
    script succeed. *)
Fixpoint with_outcomes (tr : list event) (s : list (option exn))
  : list (event * option exn) :=
  match tr with
  | [] => []
  | ev :: tr' => (ev, next_outcome s) :: with_outcomes tr' (tl s)
  end.

(** What must already have happened, and have returned, when a call is
    issued.  A credential call comes before everything else: only credential
    calls precede it.  A layer is constructed after an [ee.Initialize()] that
    returned.  A Deck receives layers whose construction returned, and is
    displayed after its own construction returned. *)
Definition ready (before : list (event * option exn)) (ev : event) : Prop :=
  match ev with
  | EvInitialize | EvAuthenticate => forall c, In c before -> is_auth (fst c)
  | EvLayer _ => In (EvInitialize, None) before
  | EvDeck d => forall l, In l (pdk.layers d) -> In (EvLayer l, None) before
  | EvShow d => In (EvDeck d, None) before /\
                forall l, In l (pdk.layers d) -> In (EvLayer l, None) before
  end.

Definition well_ordered (tr : list event) (s : list (option exn)) : Prop :=
  forall before ev after,
    tr = before ++ ev :: after -> ready (with_outcomes before s) ev.

Definition ends_with_show (tr : list event) : Prop :=
  exists before d, tr = before ++ [EvShow d].

(** The order alone, whatever the calls returned. *)
Definition may_follow (before : list event) (ev : event) : Prop :=
  match ev with
  | EvInitialize | EvAuthenticate => forall a, In a before -> is_auth a
  | EvLayer _ => In EvInitialize before
  | EvDeck d => forall l, In l (pdk.layers d) -> In (EvLayer l) before
  | EvShow d => In (EvDeck d) before /\
                forall l, In l (pdk.layers d) -> In (EvLayer l) before
  end.

Definition in_sequence (tr : list event) : Prop :=
  forall before ev after, tr = before ++ ev :: after -> may_follow before ev.

(** [in_sequence], checked by one pass over the trace. *)
Fixpoint scan (before tr : list event) : Prop :=
  match tr with
  | [] => True
  | ev :: tr' => may_follow before ev /\ scan (before ++ [ev]) tr'
  end.

(** ** Which calls returned *)

Definition is_Layer (ev : event) : bool :=
  match ev with EvLayer _ => true | _ => false end.

Definition returned (c : event * option exn) : bool :=
  match snd c with None => true | Some _ => false end.

(** An [ee.Initialize()] that returned. *)
Definition initialized (c : event * option exn) : bool :=
  is_Initialize (fst c) && returned c.

(** A call after which a run can go on: it returned, or it is an
    [ee.Initialize()] of a notebook with the fallback. *)
Definition settled (nb : notebook) (c : event * option exn) : bool :=
  returned c || (has_fallback nb && is_Initialize (fst c)).

Definition first_returned (cs : list (event * option exn)) : bool :=
  match cs with
  | c :: _ => returned c
  | [] => true
  end.

(** What the calls of a run obey, as a check on the calls and the outcome
    of the run.  Every call but the last is settled.  If a layer is
    constructed, an [ee.Initialize()] returned.  In a run that completes, the
    last call is settled too, an [ee.Initialize()] returned, and
    [ee.Authenticate()] was called unless the notebook has the fallback and
    its first call returned. *)
Definition orderly (nb : notebook) (r : result unit)
    (cs : list (event * option exn)) : bool :=
  forallb (settled nb) (removelast cs)
  && (negb (existsb is_Layer (List.map fst cs)) || existsb initialized cs)
  && match r with
     | Ok _ =>
         forallb (settled nb) cs
         && existsb initialized cs
         && ((has_fallback nb && first_returned cs)
             || existsb is_Authenticate (List.map fst cs))
     | Raise _ => true
     end.

(** ** The credential fallback, as the specification words it *)

(** "If the first call to ee.Initialize() raises an exception, then
    ee.Authenticate() is invoked and ee.Initialize() is retried exactly once;
    if the first ee.Initialize() succeeds, ee.Authenticate() is never
    invoked."  The first outside call of a notebook with the fallback is the
    first [ee.Initialize()]. *)
Definition fallback_as_worded (nb : notebook) (s : list (option exn)) : Prop :=
  let tr := trace (program nb) s in
  (forall e, next_outcome s = Some e ->
             1 <= calls is_Authenticate tr /\ calls is_Initialize tr = 2) /\
  (next_outcome s = None -> calls is_Authenticate tr = 0).

(** "The except clause catches every exception type identically": whatever
    the first [ee.Initialize()] raises, the handler runs. *)
Definition catches_every_exception (nb : notebook) : Prop :=
  forall e, 1 <= calls is_Authenticate (trace (program nb) [Some e]).

(** ** The lookups, as the specification words them *)

(** "The lookups fuel_color.get(...) and fuel_color[fuel] in the
    layer-building loops never fail": [fuel_color[fuel]] raises nothing for a
    fuel of the list, and [fuel_color.get(point.get('fuel1'))] yields a color
    at every plant that [add_style] is mapped over. *)
Definition lookups_never_fail : Prop :=
  (forall fuel, In fuel fuels ->
     exists color, forall st, getitem fuel_color_rgb fuel st = (Ok color, st)) /\
  (forall rho point p, eval rho point = DFeature p ->
     eval rho (ee.get fuel_color (ee.get point (PStr "fuel1"))) <> DValue VError).

(** ** The shape of a run *)

Definition is_credential_call (ev : event) : bool :=
  is_Initialize ev || is_Authenticate ev.

(** The credential calls of a trace, in order. *)
Definition credential_calls (tr : list event) : list event :=
  List.filter is_credential_call tr.

(** The widgets a trace displays, in order. *)
Fixpoint shown (tr : list event) : list pdk.Deck :=
  match tr with
  | [] => []
  | EvShow d :: tr' => d :: shown tr'
  | _ :: tr' => shown tr'
  end.

(** One map: its layers are built, they are handed to a widget, the widget
    is displayed. *)
Definition pipeline (d : pdk.Deck) : list event :=
  List.map EvLayer (pdk.layers d) ++ [EvDeck d; EvShow d].

(** Credentials first, then one pipeline per displayed widget, each with at
    least one layer. *)
Definition pipelined (tr : list event) : Prop :=
  tr = credential_calls tr ++ flat_map pipeline (shown tr) /\
  credential_calls tr <> [] /\
  shown tr <> [] /\
  Forall (fun d => pdk.layers d <> []) (shown tr).

(** ** Sample inputs *)

(** The hillshade cell of Introduction.ipynb, at a pixel of slope 30 degrees
    and aspect 180 degrees. *)
Definition sample_pixel : env :=
  {| asset := fun _ => 0%R;
     terrain_band := fun b => if String.eqb b "slope" then 30%R else 180%R;
     element := {| geometry_of := Point 0%R 0%R; properties := ∅ |} |}.


(** A power plant of the table: 400 MW, coal. *)
Definition sample_plant : feature :=
  {| geometry_of := Point (-53)%R 36%R;
     properties := {[ "capacitymw" := VNum 400%R; "fuel1" := VStr "Coal";
                      "name" := VStr "plant" ]} |}.

(** A plant whose fuel has no entry in [fuel_color]. *)
Definition sample_other_plant : feature :=
  {| geometry_of := Point 10%R 50%R;
     properties := {[ "capacitymw" := VNum 100%R; "fuel1" := VStr "Other" ]} |}.

Definition sample_element : env :=
  {| asset := fun _ => 0%R; terrain_band := fun _ => 0%R; element := sample_plant |}.

(** ** Observations on layers *)

(** The [id] keyword a layer was constructed with. *)
Definition layer_id (l : EarthEngineLayer) : option pyval :=
  dict_get (layer_kwargs l) "id".

(** The layers a trace constructs, in order. *)
Fixpoint constructed (tr : list event) : list EarthEngineLayer :=
  match tr with
  | [] => []
  | EvLayer l :: tr' => l :: constructed tr'
  | _ :: tr' => constructed tr'
  end.

(** ** Parameter dictionaries *)

(** A dictionary written in a notebook: of Python values, or, in the body of
    [add_style], of client objects. *)
Inductive dictionary :=
| Py (d : dict)
| Ee (items : list (string * ee.ComputedObject)).

(** The dictionaries written inside a description, as they are written. *)
Fixpoint dicts_in (t : ee.ComputedObject) : list dictionary :=
  match t with
  | ee.lit (PDict d) => [Py d]
  | ee.lit _ | ee.var | ee.Filter_eq _ _ => []
  | ee.pydict items =>
      Ee items ::
      (fix go (items : list (string * ee.ComputedObject)) : list dictionary :=
         match items with
         | [] => []
         | (_, t') :: items' => dicts_in t' ++ go items'
         end) items
  | ee.Image a | ee.FeatureCollection a | ee.Number a | ee.Dictionary a
  | ee.Terrain a | ee.select a _ | ee.toFloat a
  | ee.sin a | ee.cos a | ee.sqrt a => dicts_in a
  | ee.multiply x y | ee.divide x y | ee.subtract x y | ee.add x y
  | ee.get x y | ee.mapped x y | ee.filter x y => dicts_in x ++ dicts_in y
  | ee.set obj _ v => dicts_in obj ++ dicts_in v
  | ee.style coll kwargs => dicts_in coll ++ [Py kwargs]
  end.

(** The dictionaries among the values of keyword arguments. *)
Definition dicts_of_kwargs (kw : dict) : list dictionary :=
  flat_map (fun kv => match snd kv with PDict d => [Py d] | _ => [] end) kw.

(** The dictionaries a layer constructor or a widget receives in one call:
    those of the Earth Engine object and of the keyword arguments of a layer,
    the view state of a Deck. *)
Definition received (ev : event) : list dictionary :=
  match ev with
  | EvLayer l => dicts_in (ee_object l) ++ dicts_of_kwargs (layer_kwargs l)
  | EvDeck d => [Py (pdk.view_kwargs (pdk.initial_view_state d))]
  | _ => []
  end.

Definition forwarded_verbatim (tr : list event) (d : dictionary) : Prop :=
  In d (flat_map received tr).

(** The dictionary in the last line of [add_style],
    [{'pointSize': size, 'color': color}], with [size] and [color] as the two
    lines before it bind them. *)
Definition style_dictionary (fuel_color point : ee.ComputedObject)
  : list (string * ee.ComputedObject) :=
  let size :=
    ee.add (ee.divide (ee.sqrt (ee.Number (ee.get point (PStr "capacitymw"))))
                      (PInt 10))
           (PInt 2) in
  let color := ee.get fuel_color (ee.get point (PStr "fuel1")) in
  [("pointSize", size); ("color", color)].

(** The keyword arguments of [style] in the first loop of power_plants.ipynb,
    and the view state of its two widgets. *)
Definition style_kwargs : dict :=
  [("styleProperty", PStr "styleProperty"); ("neighborhood", PInt 50)].

Definition plants_view : dict :=
  [("latitude", PInt 36); ("longitude", PInt (-53)); ("zoom", PInt 3)].

(** The parameter dictionaries the notebooks write down, cell by cell: the
    five dictionary displays of the two files ([vis_params] in
    Introduction.ipynb; in power_plants.ipynb the hex mapping, the style
    dictionary of [add_style] as its one call, by [map] on the placeholder
    element, makes it, the RGB mapping and the empty [vis_params]), and the
    keyword arguments of every [pdk.ViewState] and [style] call, which the
    specification counts as view state values and style properties. *)
Definition parameter_dicts (nb : notebook) : list dictionary :=
  match nb with
  | Introduction =>
      [ Py [("min", PInt 0); ("max", PInt 255)];
        Py [("latitude", PFloat (377749295 # 10000000));
            ("longitude", PFloat (-1224194155 # 10000000));
            ("zoom", PInt 10); ("bearing", PInt 0); ("pitch", PInt 45)];
        Py [("latitude", PFloat (360756 # 10000));
            ("longitude", PFloat (-1119987 # 10000));
            ("zoom", PInt 7); ("bearing", PInt 0); ("pitch", PInt 30)] ]
  | power_plants =>
      [ Py fuel_color_hex;
        Ee (style_dictionary fuel_color ee.var);
        Py style_kwargs;
        Py plants_view;
        Py fuel_color_rgb;
        Py [] ]
  | intl_boundary =>
      [ Py [("fillColor", PStr "b5ffb4"); ("color", PStr "00909F");
            ("width", PInt 3)];
        Py [("latitude", PInt 36); ("longitude", PInt 10); ("zoom", PInt 3)] ]
  end.

(** What the constructors and the widgets of a notebook receive when it
    completes, call by call.  In power_plants.ipynb: each layer of the first
    loop, inside its description, the style dictionary, the hex mapping and
    the keyword arguments of [style]; each layer of the second loop its empty
    [vis_params]; each widget its view state. *)
Definition received_dicts (nb : notebook) : list dictionary :=
  match nb with
  | Introduction => parameter_dicts Introduction
  | power_plants =>
      flat_map (fun _ : string =>
                  [Ee (style_dictionary fuel_color ee.var);
                   Py fuel_color_hex; Py style_kwargs]) fuels
      ++ [Py plants_view]
      ++ flat_map (fun _ : string => [Py []]) fuels
      ++ [Py plants_view]
  | intl_boundary => parameter_dicts intl_boundary
  end.

(** "Every parameter dictionary defined in the notebooks is forwarded to the
    third-party layer constructor or map widget verbatim." *)
Definition all_forwarded_verbatim (nb : notebook) : Prop :=
  forall d, In d (parameter_dicts nb) ->
            forwarded_verbatim (trace (program nb) stored_credentials) d.

(** The (id, get_fill_color) pair a layer was constructed with, if any. *)
Definition fill_color_entry (l : EarthEngineLayer) : list (string * pyval) :=
  match layer_id l, dict_get (layer_kwargs l) "get_fill_color" with
  | Some (PStr k), Some v => [(k, v)]
  | _, _ => []
  end.

Definition fill_colors (tr : list event) : list (string * pyval) :=
  flat_map fill_color_entry (constructed tr).

(** Telling the RGB mapping from every dictionary that is forwarded: its
    first value is a list. *)
Definition first_value_is_list (d : dictionary) : bool :=
  match d with
  | Py ((_, PList _) :: _) => true
  | _ => false
  end.

(** ** Literal configuration and derived values *)

(** A description that is literal configuration: a literal, a handle that a
    client constructor makes of one, or a declarative selection, filter or
    styling of such a handle with literal parameters.  Arithmetic, property
    access, updates and mapped functions compute something. *)
Fixpoint literal_config (t : ee.ComputedObject) : bool :=
  match t with
  | ee.lit _ | ee.Filter_eq _ _ => true
  | ee.Image a | ee.FeatureCollection a | ee.Number a | ee.Dictionary a
  | ee.Terrain a | ee.select a _ | ee.style a _ => literal_config a
  | ee.filter coll flt => literal_config coll && literal_config flt
  | ee.pydict _ | ee.var | ee.toFloat _
  | ee.multiply _ _ | ee.divide _ _ | ee.subtract _ _ | ee.add _ _
  | ee.sin _ | ee.cos _ | ee.sqrt _
  | ee.get _ _ | ee.set _ _ _ | ee.mapped _ _ => false
  end.

(** "Every invocation passes only literal configuration values": every
    Earth Engine object handed to a layer constructor is literal
    configuration (keyword arguments and view states are Python data by
    their type). *)
Definition only_literal_configuration (tr : list event) : Prop :=
  forall l, In l (constructed tr) -> literal_config (ee_object l) = true.

(** The values that the functions of the notebooks compute and that reach a
    layer constructor: the hillshade of Introduction.ipynb, and for each fuel
    the styled selection of the collection mapped through [add_style]. *)
Definition derived_objects : list ee.ComputedObject :=
  Hillshade (PInt 0) (PInt 60) slope_img aspect_img
  :: List.map
       (fun fuel =>
          ee.style (ee.filter (ee.map (ee.FeatureCollection table)
                                      (add_style fuel_color))
                              (ee.Filter_eq "fuel1" (PStr fuel)))
                   [("styleProperty", PStr "styleProperty");
                    ("neighborhood", PInt 50)])
       fuels.

(** The Earth Engine objects a trace hands to the layer constructor, in
    order. *)
Definition objects (tr : list event) : list ee.ComputedObject :=
  List.map ee_object (constructed tr).

(** What each notebook hands to the layer constructor when it completes. *)
Definition handed_objects (nb : notebook) : list ee.ComputedObject :=
  match nb with
  | Introduction =>
      [image; Hillshade (PInt 0) (PInt 60) slope_img aspect_img]
  | power_plants =>
      tl derived_objects
      ++ List.map (fun fuel => ee.filter table (ee.Filter_eq "fuel1" (PStr fuel)))
                  fuels
  | intl_boundary => [countries]
  end.

(** ** The functions of the notebooks, as Python runs them

    The body of a function of the notebooks is a sequence of calls to the
    Earth Engine client: constructors ([ee.Image], [ee.Number],
    [ee.Dictionary]) and methods of client objects.  What such a call does is
    the client's business: a [client] gives each of them as an action.
    Finding the method is Python's business: a value that is no client object
    has none of the methods that the functions call, except a Python dict,
    which has [get]. *)

Inductive pyobj :=
| Obj (t : ee.ComputedObject)          (* an Earth Engine client object *)
| Val (v : pyval).                     (* any other Python value *)

Record client := mkClient {
  has_method : string -> ee.ComputedObject -> bool;   (* hasattr(obj, name) *)
  method : string -> ee.ComputedObject -> list pyobj -> M pyobj;
                                                       (* obj.name(args) *)
  new_Image : pyobj -> M pyobj;                        (* ee.Image(x) *)
  new_Number : pyobj -> M pyobj;                       (* ee.Number(x) *)
  new_Dictionary : list (string * pyobj) -> M pyobj    (* ee.Dictionary({...}) *)
}.

Definition AttributeError : exn := Exception "AttributeError".
Definition TypeError : exn := Exception "TypeError".

(** [recv.name], before the call: the lookup of the method. *)
Definition getattr (c : client) (name : string) (recv : pyobj) : M unit :=
  match recv with
  | Obj t => if has_method c name t then ret tt else raise AttributeError
  | Val (PDict _) => if String.eqb name "get" then ret tt else raise AttributeError
  | Val _ => raise AttributeError
  end.

(** [d.get(key)] and [d.get(key, default)] on a Python dict with string
    keys.  A key of another hashable type, a client object among them, equals
    none of the keys; a list or a dict cannot be hashed. *)
Definition dict_get_method (d : dict) (args : list pyobj) : M pyobj :=
  let found (key : pyobj) (default : pyobj) : M pyobj :=
    match key with
    | Val (PStr k) =>
        ret (match dict_get d k with Some v => Val v | None => default end)
    | Val (PList _) | Val (PDict _) => raise TypeError
    | _ => ret default
    end in
  match args with
  | [key] => found key (Val PNone)
  | [key; default] => found key default
  | _ => raise TypeError
  end.

(** The call of a method that was found. *)
Definition invoke (c : client) (name : string) (recv : pyobj)
    (args : list pyobj) : M pyobj :=
  match recv with
  | Obj t => method c name t args
  | Val (PDict d) => dict_get_method d args
  | Val _ => raise AttributeError
  end.

(** [recv.name(args)] when the arguments are literals. *)
Definition call_method (c : client) (name : string) (recv : pyobj)
    (args : list pyobj) : M pyobj :=
  getattr c name recv ;; invoke c name recv args.

(** [Radians], Introduction.ipynb. *)
Definition py_Radians (c : client) (img : pyobj) : M pyobj :=
  x <- call_method c "toFloat" img [] ;;
  y <- call_method c "multiply" x [Val Pmath_pi] ;;
  call_method c "divide" y [Val (PInt 180)].

(** [Hillshade], Introduction.ipynb.  Python looks a method up, evaluates
    the arguments from left to right, and calls. *)
Definition py_Hillshade (c : client) (az ze slope aspect : pyobj) : M pyobj :=
  i <- new_Image c az ;;
  azimuth <- py_Radians c i ;;
  j <- new_Image c ze ;;
  zenith <- py_Radians c j ;;
  a1 <- call_method c "subtract" azimuth [aspect] ;;
  a2 <- call_method c "cos" a1 [] ;;
  getattr c "multiply" a2 ;;
  s1 <- call_method c "sin" slope [] ;;
  a3 <- invoke c "multiply" a2 [s1] ;;
  getattr c "multiply" a3 ;;
  z1 <- call_method c "sin" zenith [] ;;
  a4 <- invoke c "multiply" a3 [z1] ;;
  getattr c "add" a4 ;;
  z2 <- call_method c "cos" zenith [] ;;
  getattr c "multiply" z2 ;;
  s2 <- call_method c "cos" slope [] ;;
  z3 <- invoke c "multiply" z2 [s2] ;;
  invoke c "add" a4 [z3].

(** [add_style], power_plants.ipynb; the global [fuel_color] it reads is its
    first argument. *)
Definition py_add_style (c : client) (fuel_color point : pyobj) : M pyobj :=
  g <- call_method c "get" point [Val (PStr "capacitymw")] ;;
  n <- new_Number c g ;;
  q <- call_method c "sqrt" n [] ;;
  d <- call_method c "divide" q [Val (PInt 10)] ;;
  size <- call_method c "add" d [Val (PInt 2)] ;;
  getattr c "get" fuel_color ;;
  k <- call_method c "get" point [Val (PStr "fuel1")] ;;
  color <- invoke c "get" fuel_color [k] ;;
  getattr c "set" point ;;
  sd <- new_Dictionary c [("pointSize", size); ("color", color)] ;;
  invoke c "set" point [Val (PStr "styleProperty"); sd].

Record pyfunction := mkFunction {
  args : Type;
  res : Type;
  call : args -> M res
}.

Definition def_Radians (c : client) : pyfunction :=
  {| args := pyobj; res := pyobj; call := py_Radians c |}.

Definition def_Hillshade (c : client) : pyfunction :=
  {| args := pyobj * pyobj * pyobj * pyobj;
     res := pyobj;
     call := fun '(az, ze, slope, aspect) => py_Hillshade c az ze slope aspect |}.

Definition def_add_style (c : client) : pyfunction :=
  {| args := pyobj * pyobj;
     res := pyobj;
     call := fun '(fuel_color, point) => py_add_style c fuel_color point |}.

(** [fuel_color[fuel]], second binding of [fuel_color]: Python alone. *)
Definition fuel_color_lookup : pyfunction :=
  {| args := string; res := pyval; call := getitem fuel_color_rgb |}.

Definition defined_functions (c : client) : list pyfunction :=
  [def_Radians c; def_Hillshade c; def_add_style c; fuel_color_lookup].

(** An action that yields the same outcome in every world and leaves the
    world as it was: no outside call, nothing consumed from the script, no
    object made. *)
Definition pure_action {A : Type} (m : M A) : Prop :=
  exists r, forall st, m st = (r, st).

(** Two evaluations on equal inputs yield equal outcomes, and an evaluation
    leaves the world as it was. *)
Definition deterministic_and_pure (f : pyfunction) : Prop :=
  forall a : args f, pure_action (call f a).

(** "There is no function defined in the notebooks for which two evaluations
    on equal inputs are guaranteed to yield equal outputs without side
    effects", with [c] for the client. *)
Definition no_deterministic_pure_logic (c : client) : Prop :=
  forall f, In f (defined_functions c) -> ~ deterministic_and_pure f.

(** A client whose constructors and methods are deterministic and
    side-effect-free. *)
Definition pure_client (c : client) : Prop :=
  (forall name t a, pure_action (method c name t a)) /\
  (forall x, pure_action (new_Image c x)) /\
  (forall x, pure_action (new_Number c x)) /\
  (forall items, pure_action (new_Dictionary c items)).

(** *** The client that builds descriptions

    The Earth Engine client as this development reads it: every constructor
    and method builds a bigger description and sends nothing.  A Python value
    given where a client object is expected is promoted.  The classes of the
    client are not told apart: every object has the methods that the
    notebooks call, and the client's own checks of its arguments are left
    out. *)

Definition promote (a : pyobj) : ee.ComputedObject :=
  match a with
  | Obj t => t
  | Val v => ee.lit v
  end.

Definition build (name : string) (t : ee.ComputedObject) (a : list pyobj)
  : option ee.ComputedObject :=
  match a with
  | [] =>
      if String.eqb name "toFloat" then Some (ee.toFloat t)
      else if String.eqb name "sin" then Some (ee.sin t)
      else if String.eqb name "cos" then Some (ee.cos t)
      else if String.eqb name "sqrt" then Some (ee.sqrt t)
      else None
  | [x] =>
      if String.eqb name "multiply" then Some (ee.multiply t (promote x))
      else if String.eqb name "divide" then Some (ee.divide t (promote x))
      else if String.eqb name "subtract" then Some (ee.subtract t (promote x))
      else if String.eqb name "add" then Some (ee.add t (promote x))
      else if String.eqb name "get" then Some (ee.get t (promote x))
      else None
  | [Val (PStr k); v] =>
      if String.eqb name "set" then Some (ee.set t k (promote v)) else None
  | _ => None
  end.

Definition ee_client : client :=
  {| has_method := fun name _ =>
       existsb (String.eqb name)
               ["toFloat"; "sin"; "cos"; "sqrt"; "multiply"; "divide";
                "subtract"; "add"; "get"; "set"];
     method := fun name t a =>
       match build name t a with
       | Some r => ret (Obj r)
       | None => raise TypeError
       end;
     new_Image := fun x => ret (Obj (ee.Image (promote x)));
     new_Number := fun x => ret (Obj (ee.Number (promote x)));
     new_Dictionary := fun items =>
       ret (Obj (ee.Dictionary
                   (ee.pydict
                      (List.map (fun kv => (fst kv, promote (snd kv))) items)))) |}.

(** A client that numbers the objects it makes: each method call takes a
    fresh identity before it builds. *)
Definition numbering_client : client :=
  {| has_method := has_method ee_client;
     method := fun name t a => (fresh ;; method ee_client name t a);
     new_Image := new_Image ee_client;
     new_Number := new_Number ee_client;
     new_Dictionary := new_Dictionary ee_client |}.

(** ** The loops of power_plants.ipynb, as functions of the lists they read *)

(** The body of the first loop: one layer for the plants of [fuel], drawn by
    Earth Engine with the style [add_style] stored. *)
Definition raster_body (fuel : string) (layers : list EarthEngineLayer)
  : M (list EarthEngineLayer) :=
  layer <- new_EarthEngineLayer
             (ee.style (ee.filter pp (ee.Filter_eq "fuel1" (PStr fuel)))
                       [("styleProperty", PStr "styleProperty");
                        ("neighborhood", PInt 50)])
             [("id", PStr fuel); ("opacity", PFloat (65 # 100))] ;;
  ret (layers ++ [layer]).

(** The body of the second loop; the global [fuel_color] it indexes is its
    first argument. *)
Definition vector_body (fuel_color : dict) (fuel : string)
    (layers : list EarthEngineLayer) : M (list EarthEngineLayer) :=
  color <- getitem fuel_color fuel ;;
  layer <- new_EarthEngineLayer
             (ee.filter table (ee.Filter_eq "fuel1" (PStr fuel)))
             [("vis_params", PDict []);
              ("getRadius", PStr ".properties.capacitymw ** 1.35");
              ("lineWidthMinPixels", PFloat (5 # 10));
              ("pointRadiusMinPixels", PInt 2);
              ("get_fill_color", color);
              ("selectors", PList [PStr "capacitymw"]);
              ("as_vector", PBool true);
              ("id", PStr fuel);
              ("opacity", PFloat (65 # 100))] ;;
  ret (layers ++ [layer]).

(** A world in which every outside call from now on succeeds. *)
Definition calm (st : state) : Prop := script st = [].

(** The world after the layers [ls] were constructed in a calm world. *)
Definition after_layers (st : state) (ls : list EarthEngineLayer) : state :=
  {| script := [];
     log := rev (List.map EvLayer ls) ++ log st;
     next_oid := next_oid st + length ls |}.

(** The [get_fill_color] keyword a layer was constructed with. *)
Definition layer_fill_color (l : EarthEngineLayer) : option pyval :=
  dict_get (layer_kwargs l) "get_fill_color".

(** ** More observations on runs *)

(** The widgets a trace constructs, in order. *)
Fixpoint decks (tr : list event) : list pdk.Deck :=
  match tr with
  | [] => []
  | EvDeck d :: tr' => d :: decks tr'
  | _ :: tr' => decks tr'
  end.

(** The identities of the objects a trace constructs, in order. *)
Fixpoint identities (tr : list event) : list nat :=
  match tr with
  | [] => []
  | EvLayer l :: tr' => layer_oid l :: identities tr'
  | EvDeck d :: tr' => pdk.deck_oid d :: identities tr'
  | _ :: tr' => identities tr'
  end.

(** The outcomes of the script that a run has read: one per outside call. *)
Definition outcomes_read {A : Type} (m : M A) (s : list (option exn))
  : list (option exn) :=
  firstn (length (trace m s)) s.

(** A list of numbers that grows strictly. *)
Fixpoint increasing (l : list nat) : bool :=
  match l with
  | x :: ((y :: _) as l') => Nat.ltb x y && increasing l'
  | _ => true
  end.

(** ** Colors

    Earth Engine reads the 'color' of a style as six hexadecimal digits,
    two for each of red, green and blue; pydeck takes the three numbers. *)

Definition hex_digit (c : Ascii.ascii) : option Z :=
  let n := Z.of_nat (Ascii.nat_of_ascii c) in
  if ((48 <=? n) && (n <=? 57))%Z then Some (n - 48)%Z
  else if ((65 <=? n) && (n <=? 70))%Z then Some (n - 55)%Z
  else if ((97 <=? n) && (n <=? 102))%Z then Some (n - 87)%Z
  else None.

Definition hex_byte (h l : Ascii.ascii) : option Z :=
  match hex_digit h, hex_digit l with
  | Some a, Some b => Some (16 * a + b)%Z
  | _, _ => None
  end.

Definition hex_color (v : pyval) : option pyval :=
  match v with
  | PStr (String r1 (String r2 (String g1 (String g2
           (String b1 (String b2 EmptyString)))))) =>
      match hex_byte r1 r2, hex_byte g1 g2, hex_byte b1 b2 with
      | Some r, Some g, Some b => Some (rgb r g b)
      | _, _, _ => None
      end
  | _ => None
  end.

(** ** What a collection holds

    The elements of the collection a description denotes, given the elements
    of the named collections: a dataset by its id, a mapped collection by
    evaluating the function's body at each element, a collection filtered on
    a string property.  Anything else is not a collection here. *)

Definition with_element (rho : env) (f : feature) : env :=
  {| asset := asset rho; terrain_band := terrain_band rho; element := f |}.

(** [ee.Filter.eq(name, v)] at one element, for a string [v]. *)
Definition has_property (name v : string) (f : feature) : bool :=
  match properties f !! name with
  | Some (VStr s) => String.eqb s v
  | _ => false
  end.

(** Every element must map to a result. *)
Fixpoint all_some {A B : Type} (g : A -> option B) (l : list A) : option (list B) :=
  match l with
  | [] => Some []
  | x :: l' =>
      match g x, all_some g l' with
      | Some y, Some ys => Some (y :: ys)
      | _, _ => None
      end
  end.

Definition as_feature (d : denot) : option feature :=
  match d with
  | DFeature f => Some f
  | _ => None
  end.

Fixpoint elements (db : string -> list feature) (rho : env)
    (t : ee.ComputedObject) : option (list feature) :=
  match t with
  | ee.FeatureCollection (ee.lit (PStr id)) => Some (db id)
  | ee.FeatureCollection (ee.lit _) => None
  | ee.FeatureCollection coll => elements db rho coll
  | ee.mapped coll body =>
      match elements db rho coll with
      | Some fs => all_some (fun f => as_feature (eval (with_element rho f) body)) fs
      | None => None
      end
  | ee.filter coll (ee.Filter_eq name (PStr v)) =>
      match elements db rho coll with
      | Some fs => Some (List.filter (has_property name v) fs)
      | None => None
      end
  | _ => None
  end.

(** A plant as [pp] holds it. *)
Definition styled (rho : env) (f : feature) : feature :=
  match eval (with_element rho f) (add_style fuel_color ee.var) with
  | DFeature f' => f'
  | _ => f
  end.

(** * Properties *)

Local Open Scope nat_scope.

(** Equality of two runs, decided by evaluating both sides: each side is
    compared with the value it evaluates to. *)
Ltac by_eval :=
  idtac;
  match goal with
  | |- ?a = ?b =>
      let v := eval vm_compute in b in
      transitivity v; reflexivity
  end.

(** The same, with the value given. *)
Ltac by_eval_to v := idtac; transitivity v; reflexivity.

(** The cases of a list that is written out. *)
Ltac in_cases H :=
  simpl in H; repeat (destruct H as [<- | H]); [ .. | exfalso; exact H ].

(** Membership in a list whose head is written out. *)
Ltac in_head := simpl; repeat (first [left; reflexivity | right]).

(** The cases of a script at its next call: it is exhausted, its next
    outcome is an exception, or its next outcome is a success (the case that
    goes on). *)
Ltac script_case s exhausted raises :=
  destruct s as [|[?e|] s]; [ exhausted | raises | ].

(** A run that completes leaves one of the traces of [completed_traces]. *)
Lemma completed_trace (nb : notebook) (s : list (option exn)) :
  outcome (program nb) s = Ok tt ->
  In (trace (program nb) s) (completed_traces nb).
Proof.
  intros H.
  destruct nb; simpl program in *; unfold completed_traces.
  - let v := eval vm_compute in (trace Introduction_nb stored_credentials) in
    pose (T0 := v).
    do 8 (script_case s ltac:(left; by_eval_to T0)
                        ltac:(vm_compute in H; discriminate)).
    left; by_eval_to T0.
  - let v := eval vm_compute in (trace power_plants_nb stored_credentials) in
    pose (T0 := v).
    let v := eval vm_compute in (trace power_plants_nb no_credentials) in
    pose (T1 := v).
    destruct s as [|[e|] s].
    + left; by_eval_to T0.
    + destruct e; try (vm_compute in H; discriminate).
      right; left.
      do 26 (script_case s ltac:(by_eval_to T1)
                           ltac:(vm_compute in H; discriminate)).
      by_eval_to T1.
    + left.
      do 24 (script_case s ltac:(by_eval_to T0)
                           ltac:(vm_compute in H; discriminate)).
      by_eval_to T0.
  - let v := eval vm_compute in (trace intl_boundary_nb stored_credentials) in
    pose (T0 := v).
    let v := eval vm_compute in (trace intl_boundary_nb no_credentials) in
    pose (T1 := v).
    destruct s as [|[e|] s].
    + left; by_eval_to T0.
    + destruct e; try (vm_compute in H; discriminate).
      right; left.
      do 5 (script_case s ltac:(by_eval_to T1)
                          ltac:(vm_compute in H; discriminate)).
      by_eval_to T1.
    + left.
      do 3 (script_case s ltac:(by_eval_to T0)
                          ltac:(vm_compute in H; discriminate)).
      by_eval_to T0.
Qed.

(** A step of [trace_prefix]: the trace is the first calls of [T], whose
    value is [Tv]. *)
Ltac prefix_of T Tv :=
  idtac;
  match goal with
  | |- exists T' k, In T' _ /\ ?tr = firstn k T' =>
      let k := eval vm_compute in (length tr) in
      exists T, k; split;
      [ in_head
      | transitivity (firstn k Tv); reflexivity ]
  end.

(** Every run, completed or cut short, leaves the first calls of a completed
    run. *)
Lemma trace_prefix (nb : notebook) (s : list (option exn)) :
  exists T k, In T (completed_traces nb) /\ trace (program nb) s = firstn k T.
Proof.
  destruct nb; simpl program; unfold completed_traces.
  - pose (T := trace Introduction_nb stored_credentials).
    let v := eval vm_compute in T in pose (Tv := v).
    do 8 (script_case s ltac:(prefix_of T Tv) ltac:(prefix_of T Tv)).
    prefix_of T Tv.
  - pose (T0 := trace power_plants_nb stored_credentials).
    let v := eval vm_compute in T0 in pose (T0v := v).
    pose (T1 := trace power_plants_nb no_credentials).
    let v := eval vm_compute in T1 in pose (T1v := v).
    destruct s as [|[e|] s].
    + prefix_of T0 T0v.
    + destruct e; [prefix_of T0 T0v | prefix_of T0 T0v | prefix_of T0 T0v |].
      do 26 (script_case s ltac:(prefix_of T1 T1v) ltac:(prefix_of T1 T1v)).
      prefix_of T1 T1v.
    + do 24 (script_case s ltac:(prefix_of T0 T0v) ltac:(prefix_of T0 T0v)).
      prefix_of T0 T0v.
  - pose (T0 := trace intl_boundary_nb stored_credentials).
    let v := eval vm_compute in T0 in pose (T0v := v).
    pose (T1 := trace intl_boundary_nb no_credentials).
    let v := eval vm_compute in T1 in pose (T1v := v).
    destruct s as [|[e|] s].
    + prefix_of T0 T0v.
    + destruct e; [prefix_of T0 T0v | prefix_of T0 T0v | prefix_of T0 T0v |].
      do 5 (script_case s ltac:(prefix_of T1 T1v) ltac:(prefix_of T1 T1v)).
      prefix_of T1 T1v.
    + do 3 (script_case s ltac:(prefix_of T0 T0v) ltac:(prefix_of T0 T0v)).
      prefix_of T0 T0v.
Qed.

(** Closing a goal about a run whose script is known as far as the run reads it. *)
Ltac settle :=
  vm_compute; repeat split; intros;
  repeat match goal with
         | H : Some _ = Some _ |- _ => injection H as <-
         end;
  try discriminate; try reflexivity; try lia.

(** ** The credential fallback *)

(** C1, counterexample.  With the fallback: when the interactive
    authentication itself raises, [ee.Initialize()] is not retried; and when
    the first [ee.Initialize()] raises [KeyboardInterrupt], which is no
    [Exception], [ee.Authenticate()] is not even invoked. *)
Lemma fallback_as_worded_fails :
  ~ fallback_as_worded power_plants
      [Some (Exception "EEException"); Some (Exception "EEException")] /\
  ~ fallback_as_worded intl_boundary [Some KeyboardInterrupt].
Proof.
  split; intros [H _].
  - destruct (H (Exception "EEException") eq_refl) as [_ H2].
    vm_compute in H2. discriminate.
  - destruct (H KeyboardInterrupt eq_refl) as [H1 _].
    vm_compute in H1. lia.
Qed.

(** C1, amended.  In a notebook with the fallback: if the first
    [ee.Initialize()] raises an instance of [Exception], then
    [ee.Authenticate()] is invoked exactly once and, if that call returns,
    [ee.Initialize()] is retried exactly once (the first three calls are
    Initialize, Authenticate, Initialize and there is no other); if the first
    [ee.Initialize()] succeeds, [ee.Authenticate()] is never invoked and
    [ee.Initialize()] is called once. *)
Theorem init_fallback (nb : notebook) (s : list (option exn)) :
  has_fallback nb = true ->
  let tr := trace (program nb) s in
  (forall e, next_outcome s = Some e -> isinstance_Exception e = true ->
     calls is_Authenticate tr = 1 /\
     (next_outcome (tl s) = None ->
        calls is_Initialize tr = 2 /\
        firstn 3 tr = [EvInitialize; EvAuthenticate; EvInitialize])) /\
  (next_outcome s = None ->
     calls is_Authenticate tr = 0 /\ calls is_Initialize tr = 1).
Proof.
  intros Hnb.
  destruct nb; try discriminate Hnb; clear Hnb; simpl program.
  - destruct s as [|[e|] s].
    + settle.
    + destruct e; [settle | settle | settle | ].
      do 26 (script_case s ltac:(settle) ltac:(settle)). settle.
    + do 24 (script_case s ltac:(settle) ltac:(settle)). settle.
  - destruct s as [|[e|] s].
    + settle.
    + destruct e; [settle | settle | settle | ].
      do 5 (script_case s ltac:(settle) ltac:(settle)). settle.
    + do 3 (script_case s ltac:(settle) ltac:(settle)). settle.
Qed.

Lemma init_fallback_witness :
  has_fallback power_plants = true /\
  calls is_Authenticate (trace (program power_plants) no_credentials) = 1 /\
  calls is_Initialize (trace (program power_plants) no_credentials) = 2.
Proof.
  split; [reflexivity |].
  destruct (init_fallback power_plants no_credentials eq_refl) as [H _].
  destruct (H (Exception "EEException") eq_refl eq_refl) as [H1 H2].
  split; [exact H1 | exact (proj1 (H2 eq_refl))].
Defined.

(** C2, counterexample.  [KeyboardInterrupt] is an exception type that the
    except clause does not catch: the handler does not run and the exception
    leaves the cell. *)
Lemma catches_every_exception_fails :
  run (program power_plants) [Some KeyboardInterrupt]
    = (Raise KeyboardInterrupt, [EvInitialize]) /\
  ~ catches_every_exception power_plants.
Proof.
  split; [reflexivity |].
  intros H. specialize (H KeyboardInterrupt). vm_compute in H. lia.
Qed.

(** C2, amended.  The fallback knows one category, the instances of
    [Exception], and treats them all alike; an exception outside that
    hierarchy is not caught and leaves the notebook at once.  Its retry budget
    is one: when the retried [ee.Initialize()] raises, the exception leaves
    the notebook and nothing follows the three calls Initialize, Authenticate,
    Initialize.  The notebook without the fallback has no handler: whatever
    its [ee.Authenticate()] or its [ee.Initialize()] raises leaves it. *)
Theorem retry_budget (nb : notebook) :
  (has_fallback nb = true ->
     (forall e e' rest,
        isinstance_Exception e = true -> isinstance_Exception e' = true ->
        run (program nb) (Some e :: rest) = run (program nb) (Some e' :: rest)) /\
     (forall e rest,
        isinstance_Exception e = false ->
        run (program nb) (Some e :: rest) = (Raise e, [EvInitialize])) /\
     (forall e e2 rest,
        isinstance_Exception e = true ->
        run (program nb) (Some e :: None :: Some e2 :: rest)
          = (Raise e2, [EvInitialize; EvAuthenticate; EvInitialize]))) /\
  (has_fallback nb = false ->
     (forall e rest,
        run (program nb) (Some e :: rest) = (Raise e, [EvAuthenticate])) /\
     (forall e rest,
        run (program nb) (None :: Some e :: rest)
          = (Raise e, [EvAuthenticate; EvInitialize]))).
Proof.
  destruct nb; (split; intros Hnb; [try discriminate Hnb | try discriminate Hnb]);
    clear Hnb; simpl program.
  - split; intros; reflexivity.
  - split; [| split].
    + intros [| | |c] [| | |c'] rest He He'; try discriminate; reflexivity.
    + intros [| | |c] rest He; try discriminate; reflexivity.
    + intros [| | |c] e2 rest He; try discriminate; reflexivity.
  - split; [| split].
    + intros [| | |c] [| | |c'] rest He He'; try discriminate; reflexivity.
    + intros [| | |c] rest He; try discriminate; reflexivity.
    + intros [| | |c] e2 rest He; try discriminate; reflexivity.
Qed.

Lemma retry_budget_witness :
  has_fallback intl_boundary = true /\
  isinstance_Exception (Exception "EEException") = true /\
  run (program intl_boundary)
      [Some (Exception "EEException"); None; Some (Exception "HttpError")]
    = (Raise (Exception "HttpError"), [EvInitialize; EvAuthenticate; EvInitialize]) /\
  has_fallback Introduction = false /\
  run (program Introduction) [None; Some (Exception "EEException")]
    = (Raise (Exception "EEException"), [EvAuthenticate; EvInitialize]).
Proof.
  split; [reflexivity |]. split; [reflexivity |]. split; [| split].
  - exact (proj2 (proj2 (proj1 (retry_budget intl_boundary) eq_refl))
             (Exception "EEException") (Exception "HttpError") [] eq_refl).
  - reflexivity.
  - exact (proj2 (proj2 (retry_budget Introduction) eq_refl)
             (Exception "EEException") []).
Defined.

(** ** The pipeline of every notebook *)

Lemma scan_sound (tr before : list event) :
  scan before tr ->
  forall pre ev after, tr = pre ++ ev :: after -> may_follow (before ++ pre) ev.
Proof.
  revert before. induction tr as [|x tr IH]; intros before Hs pre ev after E.
  - destruct pre; discriminate.
  - destruct Hs as [Hr Hs]. destruct pre as [|y pre]; simpl in E.
    + injection E as -> _. now rewrite app_nil_r.
    + injection E as -> E.
      specialize (IH _ Hs pre ev after E).
      now rewrite <- app_assoc in IH.
Qed.

Lemma scan_in_sequence (tr : list event) : scan [] tr -> in_sequence tr.
Proof. intros Hs pre ev after E. exact (scan_sound tr [] Hs pre ev after E). Qed.

Lemma credential_calls_auth (tr : list event) :
  Forall is_auth (credential_calls tr).
Proof.
  unfold credential_calls. apply List.Forall_forall. intros ev Hev.
  apply filter_In in Hev as [_ Hev].
  destruct ev; try discriminate; [left | right]; reflexivity.
Qed.

(** Every completed run has the shape [pipelined]. *)
Lemma completed_pipelined (nb : notebook) (tr : list event) :
  In tr (completed_traces nb) -> pipelined tr.
Proof.
  intros H.
  destruct nb; simpl in H;
    repeat (destruct H as [<- | H]; [| try contradiction]).
  all: split; [by_eval |].
  all: split; [vm_compute; discriminate |].
  all: split; [vm_compute; discriminate |].
  all: vm_compute; repeat constructor; discriminate.
Qed.

Lemma scan_app (t1 t2 b : list event) :
  scan b t1 -> scan (b ++ t1) t2 -> scan b (t1 ++ t2).
Proof.
  revert b. induction t1 as [|x t1 IH]; intros b H1 H2; simpl in *.
  - now rewrite app_nil_r in H2.
  - destruct H1 as [Hr H1]. split; [exact Hr |].
    apply IH; [exact H1 |]. now rewrite <- app_assoc.
Qed.

Lemma scan_credentials (creds b : list event) :
  (forall a, In a b -> is_auth a) -> Forall is_auth creds -> scan b creds.
Proof.
  revert b. induction creds as [|c creds IH]; intros b Hb H; simpl; [exact I |].
  inversion H as [|? ? Hc Hcs]; subst. split.
  - destruct Hc as [-> | ->]; exact Hb.
  - apply IH; [| exact Hcs].
    intros a Ha. apply in_app_or in Ha as [Ha | [<- | []]];
      [now apply Hb | exact Hc].
Qed.

Lemma scan_layers (ls : list EarthEngineLayer) (b : list event) :
  In EvInitialize b -> scan b (List.map EvLayer ls).
Proof.
  revert b. induction ls as [|l ls IH]; intros b Hb; simpl; [exact I |].
  split; [exact Hb |]. apply IH. apply in_or_app. now left.
Qed.

Lemma scan_pipeline (d : pdk.Deck) (b : list event) :
  In EvInitialize b -> scan b (pipeline d).
Proof.
  intros Hb. unfold pipeline. apply scan_app; [now apply scan_layers |].
  assert (Hl : forall l, In l (pdk.layers d) ->
                         In (EvLayer l) (b ++ List.map EvLayer (pdk.layers d))).
  { intros l Hl. apply in_or_app. right. now apply in_map. }
  simpl. split; [exact Hl |]. split; [| exact I]. split.
  - apply in_or_app. right. now left.
  - intros l Hin. apply in_or_app. left. now apply Hl.
Qed.

Lemma scan_pipelines (ds : list pdk.Deck) (b : list event) :
  In EvInitialize b -> scan b (flat_map pipeline ds).
Proof.
  revert b. induction ds as [|d ds IH]; intros b Hb; simpl; [exact I |].
  apply scan_app; [now apply scan_pipeline |].
  apply IH. apply in_or_app. now left.
Qed.

Lemma pipelined_scan (tr : list event) :
  pipelined tr -> In EvInitialize tr -> scan [] tr.
Proof.
  intros [E _] Hi.
  assert (Hc : In EvInitialize (credential_calls tr))
    by (apply filter_In; split; [exact Hi | reflexivity]).
  rewrite E. apply scan_app.
  - apply scan_credentials; [intros a [] | apply credential_calls_auth].
  - apply scan_pipelines. exact Hc.
Qed.

Lemma pipelines_end (ds : list pdk.Deck) (pre : list event) :
  ds <> [] -> ends_with_show (pre ++ flat_map pipeline ds).
Proof.
  revert pre. induction ds as [|d ds IH]; intros pre Hds; [contradiction |].
  destruct ds as [|d' ds].
  - simpl. rewrite app_nil_r. unfold pipeline.
    exists (pre ++ List.map EvLayer (pdk.layers d) ++ [EvDeck d]), d.
    now rewrite <- !app_assoc.
  - change (flat_map pipeline (d :: d' :: ds))
      with (pipeline d ++ flat_map pipeline (d' :: ds)).
    rewrite app_assoc. apply IH. discriminate.
Qed.

Lemma in_sequence_prefix (t1 t2 : list event) :
  in_sequence (t1 ++ t2) -> in_sequence t1.
Proof.
  intros H before ev after E. apply (H before ev (after ++ t2)).
  rewrite E, <- app_assoc. reflexivity.
Qed.

Lemma in_sequence_firstn (k : nat) (tr : list event) :
  in_sequence tr -> in_sequence (firstn k tr).
Proof.
  intros H. apply (in_sequence_prefix _ (skipn k tr)).
  now rewrite firstn_skipn.
Qed.

Lemma in_pipeline (d : pdk.Deck) (ev : event) :
  In ev (pipeline d) <->
  (exists l, ev = EvLayer l /\ In l (pdk.layers d)) \/ ev = EvDeck d \/ ev = EvShow d.
Proof.
  unfold pipeline. rewrite in_app_iff, in_map_iff. simpl. split.
  - intros [[l [E Hl]] | [E | [E | []]]]; eauto.
  - intros [[l [E Hl]] | [E | E]]; eauto.
Qed.

Lemma in_pipelined (tr : list event) (d : pdk.Deck) (ev : event) :
  pipelined tr -> In d (shown tr) -> In ev (pipeline d) -> In ev tr.
Proof.
  intros [E _] Hd Hev. rewrite E. apply in_or_app. right.
  apply in_flat_map. now exists d.
Qed.

Lemma completed_initialized (nb : notebook) (tr : list event) :
  In tr (completed_traces nb) -> In EvInitialize tr.
Proof. intros H. destruct nb; in_cases H; vm_compute; in_head. Qed.

(** The calls of every run, completed or cut short, come in order. *)
Lemma run_in_sequence (nb : notebook) (s : list (option exn)) :
  in_sequence (trace (program nb) s).
Proof.
  destruct (trace_prefix nb s) as [T [k [HT E]]]. rewrite E.
  apply in_sequence_firstn, scan_in_sequence, pipelined_scan.
  - now apply (completed_pipelined nb).
  - now apply (completed_initialized nb).
Qed.

(** *** Calls and their outcomes *)

Lemma with_outcomes_fst (tr : list event) (s : list (option exn)) :
  List.map fst (with_outcomes tr s) = tr.
Proof.
  revert s. induction tr as [|ev tr IH]; intros s; simpl; [reflexivity |].
  now rewrite IH.
Qed.

Lemma with_outcomes_app (a b : list event) (s : list (option exn)) :
  with_outcomes (a ++ b) s
  = with_outcomes a s ++ with_outcomes b (skipn (length a) s).
Proof.
  revert s. induction a as [|ev a IH]; intros s; simpl; [reflexivity |].
  rewrite IH. do 3 f_equal. destruct s; [now rewrite skipn_nil | reflexivity].
Qed.

(** Among settled calls, a call that is no [ee.Initialize()] returned. *)
Lemma settled_returned (nb : notebook) (cs : list (event * option exn))
    (ev : event) :
  forallb (settled nb) cs = true ->
  is_Initialize ev = false ->
  In ev (List.map fst cs) -> In (ev, None) cs.
Proof.
  intros H Hn Hin. apply in_map_iff in Hin as [[ev' o] [E Hc]].
  simpl in E. subst ev'. rewrite forallb_forall in H. specialize (H _ Hc).
  unfold settled, returned in H. simpl in H.
  rewrite Hn, andb_false_r, orb_false_r in H.
  destruct o; [discriminate | exact Hc].
Qed.

Lemma initialized_in (cs : list (event * option exn)) :
  existsb initialized cs = true -> In (EvInitialize, None) cs.
Proof.
  intros H. apply existsb_exists in H as [[ev o] [Hc Hi]].
  unfold initialized, returned in Hi. simpl in Hi.
  apply andb_true_iff in Hi as [Hev Ho].
  destruct ev; try discriminate. destruct o; [discriminate | exact Hc].
Qed.

(** Calls that come in order, that are settled up to the last one and that
    initialize before they build, are well ordered. *)
Lemma ordered_returned (nb : notebook) (r : result unit) (tr : list event)
    (s : list (option exn)) :
  in_sequence tr ->
  orderly nb r (with_outcomes tr s) = true ->
  well_ordered tr s.
Proof.
  intros Hseq Ho before ev after E.
  unfold orderly in Ho.
  apply andb_true_iff in Ho as [Ho _]. apply andb_true_iff in Ho as [Hq Hi].
  rewrite with_outcomes_fst in Hi.
  assert (Hcs : with_outcomes tr s
                = with_outcomes before s
                  ++ (ev, next_outcome (skipn (length before) s))
                  :: with_outcomes after (tl (skipn (length before) s)))
    by (rewrite E, with_outcomes_app; reflexivity).
  assert (Hset : forallb (settled nb) (with_outcomes before s) = true).
  { rewrite Hcs, removelast_app in Hq by discriminate.
    rewrite forallb_app in Hq. now apply andb_true_iff in Hq as [Hq _]. }
  pose proof (Hseq before ev after E) as Hp.
  pose proof (with_outcomes_fst before s) as Hfst.
  destruct ev as [| |l|d|d]; simpl in Hp |- *.
  - intros c Hc. apply Hp. rewrite <- Hfst. now apply in_map.
  - intros c Hc. apply Hp. rewrite <- Hfst. now apply in_map.
  - assert (Hl : existsb is_Layer tr = true).
    { apply existsb_exists. exists (EvLayer l).
      split; [rewrite E; apply in_elt | reflexivity]. }
    rewrite Hl in Hi. simpl in Hi. apply initialized_in in Hi.
    rewrite Hcs in Hi. apply in_app_or in Hi as [Hi | [Hi | Hi]].
    + exact Hi.
    + discriminate Hi.
    + exfalso. apply (in_map fst) in Hi. rewrite with_outcomes_fst in Hi.
      simpl in Hi. apply in_split in Hi as [a1 [a2 Ha]].
      assert (E' : tr = (before ++ EvLayer l :: a1) ++ EvInitialize :: a2)
        by (rewrite E, Ha, <- app_assoc; reflexivity).
      pose proof (Hseq _ _ _ E') as Hbad. simpl in Hbad.
      destruct (Hbad (EvLayer l) (in_elt _ _ _)); discriminate.
  - intros l Hl. apply (settled_returned nb); [exact Hset | reflexivity |].
    rewrite Hfst. now apply Hp.
  - destruct Hp as [Hd Hls]. split.
    + apply (settled_returned nb); [exact Hset | reflexivity |].
      now rewrite Hfst.
    + intros l Hl. apply (settled_returned nb); [exact Hset | reflexivity |].
      rewrite Hfst. now apply Hls.
Qed.

(** Every run is orderly, whatever the outside calls do. *)
Lemma runs_orderly (nb : notebook) (s : list (option exn)) :
  orderly nb (outcome (program nb) s)
          (with_outcomes (trace (program nb) s) s) = true.
Proof.
  destruct nb; simpl program.
  - do 8 (script_case s ltac:(vm_compute; reflexivity)
                        ltac:(vm_compute; reflexivity)).
    vm_compute; reflexivity.
  - destruct s as [|[e|] s].
    + vm_compute; reflexivity.
    + destruct e; [vm_compute; reflexivity | vm_compute; reflexivity
                  | vm_compute; reflexivity |].
      do 26 (script_case s ltac:(vm_compute; reflexivity)
                           ltac:(vm_compute; reflexivity)).
      vm_compute; reflexivity.
    + do 24 (script_case s ltac:(vm_compute; reflexivity)
                           ltac:(vm_compute; reflexivity)).
      vm_compute; reflexivity.
  - destruct s as [|[e|] s].
    + vm_compute; reflexivity.
    + destruct e; [vm_compute; reflexivity | vm_compute; reflexivity
                  | vm_compute; reflexivity |].
      do 5 (script_case s ltac:(vm_compute; reflexivity)
                          ltac:(vm_compute; reflexivity)).
      vm_compute; reflexivity.
    + do 3 (script_case s ltac:(vm_compute; reflexivity)
                          ltac:(vm_compute; reflexivity)).
      vm_compute; reflexivity.
Qed.

(** A notebook completes when no outside call raises. *)
Lemma quiet_completes (nb : notebook) (s : list (option exn)) :
  Forall (fun o => o = None) s -> outcome (program nb) s = Ok tt.
Proof.
  intros H.
  assert (Hb : forallb (fun o : option exn =>
                          match o with None => true | Some _ => false end) s
               = true).
  { apply forallb_forall. intros o Ho.
    rewrite List.Forall_forall in H. now rewrite (H o Ho). }
  clear H. destruct nb; simpl program.
  - do 8 (script_case s ltac:(reflexivity) ltac:(discriminate Hb)).
    reflexivity.
  - do 25 (script_case s ltac:(reflexivity) ltac:(discriminate Hb)).
    reflexivity.
  - do 4 (script_case s ltac:(reflexivity) ltac:(discriminate Hb)).
    reflexivity.
Qed.

Section CompletedRun.

Variable nb : notebook.
Variable s : list (option exn).
Hypothesis completes : outcome (program nb) s = Ok tt.

Let tr : list event := trace (program nb) s.
Let cs : list (event * option exn) := with_outcomes tr s.

Lemma run_pipelined : pipelined tr.
Proof. now apply (completed_pipelined nb), completed_trace. Qed.

Lemma run_settled : forallb (settled nb) cs = true.
Proof.
  pose proof (runs_orderly nb s) as H. rewrite completes in H.
  unfold orderly in H. fold tr in H. fold cs in H.
  apply andb_true_iff in H as [_ H]. apply andb_true_iff in H as [H _].
  now apply andb_true_iff in H as [H _].
Qed.

Lemma run_initialized : In (EvInitialize, None) cs.
Proof.
  pose proof (runs_orderly nb s) as H. rewrite completes in H.
  unfold orderly in H. fold tr in H. fold cs in H.
  apply andb_true_iff in H as [_ H]. apply andb_true_iff in H as [H _].
  apply andb_true_iff in H as [_ H]. now apply initialized_in.
Qed.

Lemma run_authenticated :
  has_fallback nb = false \/ next_outcome s <> None ->
  In (EvAuthenticate, None) cs.
Proof.
  intros Hc.
  pose proof (runs_orderly nb s) as H. rewrite completes in H.
  unfold orderly in H. fold tr in H. fold cs in H.
  apply andb_true_iff in H as [_ H]. apply andb_true_iff in H as [_ H].
  apply (settled_returned nb); [exact run_settled | reflexivity |].
  apply orb_true_iff in H as [H | H].
  - exfalso. apply andb_true_iff in H as [Hf Hr].
    destruct Hc as [Hc | Hc]; [congruence |].
    pose proof run_initialized as Hi.
    unfold cs in Hr, Hi. destruct tr as [|ev t]; [destruct Hi |].
    simpl in Hr. unfold returned in Hr. simpl in Hr.
    destruct (next_outcome s); [discriminate | now apply Hc].
  - apply existsb_exists in H as [ev [Hin Hev]].
    destruct ev; try discriminate. exact Hin.
Qed.

Lemma run_has_layer : exists l, In (EvLayer l, None) cs.
Proof.
  pose proof run_pipelined as H. pose proof H as [_ [_ [Hs Hl]]].
  destruct (shown tr) as [|d ds] eqn:Ed; [contradiction |].
  inversion Hl as [|? ? Hd _]; subst.
  destruct (pdk.layers d) as [|l ls] eqn:El; [contradiction |].
  exists l. apply (settled_returned nb); [exact run_settled | reflexivity |].
  unfold cs. rewrite with_outcomes_fst.
  apply (in_pipelined tr d); [exact H | rewrite Ed; now left |].
  apply in_pipeline. left. exists l. split; [reflexivity |].
  rewrite El. now left.
Qed.

Lemma run_layer_shown (l : EarthEngineLayer) :
  In (EvLayer l) tr ->
  exists d, In l (pdk.layers d) /\
            In (EvDeck d, None) cs /\ In (EvShow d, None) cs.
Proof.
  pose proof run_pipelined as H. pose proof H as [E _].
  pose proof (credential_calls_auth tr) as Hall.
  intros Hin. rewrite E in Hin. apply in_app_or in Hin as [Hin | Hin].
  - rewrite List.Forall_forall in Hall. destruct (Hall _ Hin); discriminate.
  - apply in_flat_map in Hin as [d [Hd Hin]].
    apply in_pipeline in Hin as [[l' [El' Hl']] | [El' | El']];
      try discriminate.
    injection El' as <-.
    exists d. split; [exact Hl' |].
    split; (apply (settled_returned nb); [exact run_settled | reflexivity |]);
      unfold cs; rewrite with_outcomes_fst;
      apply (in_pipelined tr d); try assumption;
      apply in_pipeline; auto.
Qed.

End CompletedRun.

(** C3.  Every notebook completes when no outside call raises.  In every
    run of a notebook that completes, whatever the outside calls do, an
    [ee.Initialize()] returned, and so did an [ee.Authenticate()] wherever the
    notebook calls it (always in Introduction.ipynb, after a first
    [ee.Initialize()] that raised in the other two); the construction of at
    least one EarthEngineLayer returned; and every EarthEngineLayer that is
    constructed is handed to a pydeck Deck whose construction and whose
    [show()] returned. *)
Theorem every_notebook_pipeline (nb : notebook) (s : list (option exn)) :
  (Forall (fun o => o = None) s -> outcome (program nb) s = Ok tt) /\
  (outcome (program nb) s = Ok tt ->
   let tr := trace (program nb) s in
   let cs := with_outcomes tr s in
   In (EvInitialize, None) cs /\
   (has_fallback nb = false \/ next_outcome s <> None ->
    In (EvAuthenticate, None) cs) /\
   (exists l, In (EvLayer l, None) cs) /\
   (forall l, In (EvLayer l) tr ->
      exists d, In l (pdk.layers d) /\
                In (EvDeck d, None) cs /\ In (EvShow d, None) cs)).
Proof.
  split; [apply quiet_completes |].
  intros H tr cs. split; [| split; [| split]].
  - exact (run_initialized nb s H).
  - exact (run_authenticated nb s H).
  - exact (run_has_layer nb s H).
  - exact (run_layer_shown nb s H).
Qed.

Lemma every_notebook_pipeline_witness :
  outcome (program power_plants) no_credentials = Ok tt /\
  In (EvInitialize, None)
     (with_outcomes (trace (program power_plants) no_credentials)
                    no_credentials) /\
  In (EvAuthenticate, None)
     (with_outcomes (trace (program power_plants) no_credentials)
                    no_credentials) /\
  outcome (program Introduction) stored_credentials = Ok tt.
Proof.
  pose proof (proj2 (every_notebook_pipeline power_plants no_credentials)
                eq_refl) as [Hi [Ha _]].
  split; [reflexivity |]. split; [exact Hi |]. split.
  - apply Ha. right. discriminate.
  - exact (proj1 (every_notebook_pipeline Introduction stored_credentials)
             (List.Forall_nil _)).
Defined.

(** A layer constructed before [ee.Initialize()] is out of order, and so is
    one constructed after an [ee.Initialize()] that raised. *)
Example layer_before_Initialize (l : EarthEngineLayer) (e : exn) :
  ~ well_ordered [EvAuthenticate; EvLayer l; EvInitialize] [] /\
  ~ well_ordered [EvInitialize; EvLayer l] [Some e].
Proof.
  split; intros H.
  - specialize (H [EvAuthenticate] (EvLayer l) [EvInitialize] eq_refl).
    simpl in H. destruct H as [H | []]. discriminate H.
  - specialize (H [EvInitialize] (EvLayer l) [] eq_refl).
    simpl in H. destruct H as [H | []]. discriminate H.
Qed.

(** C4.  In every notebook and in every run of it, completed or cut short by
    an exception, the calls are ordered.  The credential calls come first:
    nothing is constructed or displayed before the last of them.  An
    [ee.Initialize()] has returned before any EarthEngineLayer is
    constructed; the construction of every layer has returned before a Deck
    receives it; the construction of a Deck and of its layers has returned
    before the Deck is displayed.  The last call of a run that completes is a
    [show()]. *)
Theorem cell_order (nb : notebook) (s : list (option exn)) :
  well_ordered (trace (program nb) s) s /\
  (outcome (program nb) s = Ok tt -> ends_with_show (trace (program nb) s)).
Proof.
  split.
  - apply (ordered_returned nb (outcome (program nb) s)).
    + apply run_in_sequence.
    + apply runs_orderly.
  - intros H. apply completed_trace, completed_pipelined in H.
    destruct H as [E [_ [Hs _]]]. rewrite E. now apply pipelines_end.
Qed.

Lemma cell_order_witness :
  outcome (program Introduction) stored_credentials = Ok tt /\
  well_ordered (trace (program Introduction) stored_credentials)
               stored_credentials /\
  ends_with_show (trace (program Introduction) stored_credentials).
Proof.
  split; [reflexivity |].
  destruct (cell_order Introduction stored_credentials) as [H1 H2].
  split; [exact H1 | apply H2; reflexivity].
Defined.

(** ** The functions of the notebooks *)

Local Open Scope R_scope.

Lemma eval_Radians (rho : env) (img : ee.ComputedObject) (x : R) :
  eval rho img = DValue (VNum x) ->
  eval rho (Radians img) = DValue (VNum (radians x)).
Proof. intros H. unfold Radians. simpl. now rewrite H. Qed.

Lemma eval_Image_number (rho : env) (n : pyval) (x : R) :
  of_py n = VNum x -> eval rho (ee.Image n) = DValue (VNum x).
Proof. intros H. simpl. now rewrite H. Qed.

Lemma eval_Hillshade (rho : env) (az ze : pyval)
    (slope aspect : ee.ComputedObject) (a z s p : R) :
  of_py az = VNum a ->
  of_py ze = VNum z ->
  eval rho slope = DValue (VNum s) ->
  eval rho aspect = DValue (VNum p) ->
  eval rho (Hillshade az ze slope aspect)
    = DValue (VNum (hillshade_reference a z s p)).
Proof.
  intros Ha Hz Hs Hp.
  pose proof (eval_Radians rho _ _ (eval_Image_number rho az a Ha)) as Haz.
  pose proof (eval_Radians rho _ _ (eval_Image_number rho ze z Hz)) as Hze.
  unfold Hillshade. cbn [eval]. rewrite Haz, Hze, Hs, Hp. reflexivity.
Qed.

(** C8.  For numbers [az], [ze] and images [slope], [aspect] (angles in
    radians), the value of [Hillshade az ze slope aspect] at a pixel is
    cos(az.pi/180 - aspect) . sin(slope) . sin(ze.pi/180)
    + cos(ze.pi/180) . cos(slope), and [Radians x] is x.pi/180: the formula of
    the comment in the function. *)
Theorem Hillshade_formula (rho : env) (az ze : pyval)
    (slope aspect : ee.ComputedObject) (a z s p : R) :
  of_py az = VNum a ->
  of_py ze = VNum z ->
  eval rho slope = DValue (VNum s) ->
  eval rho aspect = DValue (VNum p) ->
  eval rho (Hillshade az ze slope aspect)
    = DValue (VNum (cos (a * PI / 180 - p) * sin s * sin (z * PI / 180)
                    + cos (z * PI / 180) * cos s)) /\
  eval rho (Hillshade az ze slope aspect)
    = DValue (VNum (hillshade_reference a z s p)) /\
  eval rho (Radians (ee.Image az)) = DValue (VNum (a * PI / 180)).
Proof.
  intros Ha Hz Hs Hp.
  pose proof (eval_Hillshade rho az ze slope aspect a z s p Ha Hz Hs Hp) as E.
  split; [exact E |]. split; [exact E |].
  exact (eval_Radians rho _ _ (eval_Image_number rho az a Ha)).
Qed.

Lemma Hillshade_formula_witness :
  eval sample_pixel (Hillshade (PInt 0) (PInt 60) slope_img aspect_img)
    = DValue (VNum (hillshade_reference 0 60 (radians 30) (radians 180))).
Proof.
  exact (proj1 (proj2 (Hillshade_formula sample_pixel (PInt 0) (PInt 60)
                         slope_img aspect_img 0 60 (radians 30) (radians 180)
                         eq_refl eq_refl eq_refl eq_refl))).
Defined.

(** On flat ground the hillshade is the cosine of the zenith angle: one half
    for the zenith of 60 degrees that the notebook uses. *)
Example Hillshade_flat (rho : env) (aspect : ee.ComputedObject) (p : R) :
  eval rho aspect = DValue (VNum p) ->
  eval rho (Hillshade (PInt 0) (PInt 60) (ee.Image (PInt 0)) aspect)
    = DValue (VNum (1 / 2)).
Proof.
  intros Hp.
  rewrite (eval_Hillshade rho (PInt 0) (PInt 60) (ee.Image (PInt 0)) aspect
             0 60 0 p eq_refl eq_refl eq_refl Hp).
  unfold hillshade_reference, radians. do 2 f_equal.
  rewrite sin_0, cos_0.
  replace (60 * PI / 180) with (PI / 3) by field.
  rewrite cos_PI3. lra.
Qed.

Lemma dict_get_of_py (d : dict) (k : string) :
  dict_get (List.map (fun kv => (fst kv, of_py (snd kv))) d) k
  = option_map of_py (dict_get d k).
Proof.
  induction d as [|[k' v] d IH]; simpl; [reflexivity |].
  destruct (String.eqb k' k); [reflexivity | exact IH].
Qed.





(** Off the palette: the point is returned with its geometry and its other
    properties, and the style it stores holds an error in place of the
    color. *)
Example add_style_unknown_fuel :
  eval {| asset := fun _ => 0%R; terrain_band := fun _ => 0%R;
          element := sample_other_plant |}
       (add_style fuel_color ee.var)
  = DFeature
      {| geometry_of := Point 10 50;
         properties :=
           <["styleProperty" :=
               VDict [("pointSize", VNum (sqrt 100 / 10 + 2)); ("color", VError)]]>
             (properties sample_other_plant) |}.
Proof. reflexivity. Qed.

(** ** The fuel tables *)

Local Open Scope nat_scope.

Ltac raised_by_script H :=
  vm_compute in H; first [discriminate H | injection H as <-; in_head].

(** Whatever power_plants.ipynb raises was raised by an outside call: none of
    its own steps, the lookups [fuel_color[fuel]] among them, fails. *)
Lemma power_plants_raises (s : list (option exn)) (e : exn) :
  outcome (program power_plants) s = Raise e -> In (Some e) s.
Proof.
  intros H. simpl program in H.
  destruct s as [|[e0|] s].
  - raised_by_script H.
  - destruct e0; [raised_by_script H | raised_by_script H | raised_by_script H |].
    right.
    do 26 (script_case s ltac:(raised_by_script H) ltac:(raised_by_script H)).
    raised_by_script H.
  - do 24 (script_case s ltac:(raised_by_script H) ltac:(raised_by_script H)).
    raised_by_script H.
Qed.

Lemma power_plants_layers (tr : list event) :
  In tr (completed_traces power_plants) ->
  List.map (fun d => List.map layer_id (pdk.layers d)) (shown tr)
    = [List.map (fun fuel => Some (PStr fuel)) fuels;
       List.map (fun fuel => Some (PStr fuel)) fuels] /\
  constructed tr = flat_map pdk.layers (shown tr).
Proof.
  intros H. in_cases H; split; by_eval.
Qed.

Lemma dict_get_None {V : Type} (d : list (string * V)) (k : string) :
  ~ In k (keys d) -> dict_get d k = None.
Proof.
  induction d as [|[k' v] d IH]; simpl; intros H; [reflexivity |].
  destruct (String.eqb_spec k' k) as [E | _].
  - elim H. now left.
  - apply IH. intros Hin. apply H. now right.
Qed.

(** C10, counterexample.  [add_style] is mapped over every plant of the
    table, and a plant burns what it burns: at a plant whose 'fuel1' is
    'Other', which is no key of [fuel_color], the lookup
    [fuel_color.get(point.get('fuel1'))] fails. *)
Lemma lookups_never_fail_fails :
  properties sample_other_plant !! "fuel1" = Some (VStr "Other") /\
  eval {| asset := fun _ => 0%R; terrain_band := fun _ => 0%R;
          element := sample_other_plant |}
       (ee.get fuel_color (ee.get ee.var (PStr "fuel1")))
    = DValue VError /\
  ~ lookups_never_fail.
Proof.
  split; [reflexivity |]. split; [reflexivity |].
  intros [_ H].
  exact (H {| asset := fun _ => 0%R; terrain_band := fun _ => 0%R;
              element := sample_other_plant |}
           ee.var sample_other_plant eq_refl eq_refl).
Qed.

(** C10, amended.  Every element of [fuels] is a key of both [fuel_color]
    dictionaries, so [fuel_color[fuel]] in the second loop never fails: it
    returns a color and raises nothing.  [fuel_color.get(...)] finds a color
    at every plant whose 'fuel1' is a fuel of the list, the plants that the
    layers select, and fails at a plant whose 'fuel1' is not in the list.  The
    notebook raises only what an outside call raised, and in a run that
    completes each loop constructs exactly one EarthEngineLayer per fuel, ten
    in all, whose id is that fuel name. *)
Theorem fuels_have_colors :
  (forall fuel, In fuel fuels ->
     In fuel (keys fuel_color_hex) /\ In fuel (keys fuel_color_rgb)) /\
  (forall fuel, In fuel fuels ->
     exists color, forall st, getitem fuel_color_rgb fuel st = (Ok color, st)) /\
  (forall fuel rho point p, In fuel fuels ->
     eval rho point = DFeature p ->
     properties p !! "fuel1" = Some (VStr fuel) ->
     exists color,
       dict_get fuel_color_hex fuel = Some color /\
       eval rho (ee.get fuel_color (ee.get point (PStr "fuel1")))
       = DValue (of_py color)) /\
  (forall s e, outcome (program power_plants) s = Raise e -> In (Some e) s) /\
  (forall s, outcome (program power_plants) s = Ok tt ->
     let tr := trace (program power_plants) s in
     List.map (fun d => List.map layer_id (pdk.layers d)) (shown tr)
       = [List.map (fun fuel => Some (PStr fuel)) fuels;
          List.map (fun fuel => Some (PStr fuel)) fuels] /\
     constructed tr = flat_map pdk.layers (shown tr)) /\
  length fuels = 10 /\
  (forall fuel rho point p, ~ In fuel fuels ->
     eval rho point = DFeature p ->
     properties p !! "fuel1" = Some (VStr fuel) ->
     eval rho (ee.get fuel_color (ee.get point (PStr "fuel1")))
     = DValue VError).
Proof.
  split; [| split; [| split; [| split; [| split; [| split]]]]].
  - intros fuel H. in_cases H; split; in_head.
  - intros fuel H. in_cases H; eexists; intros st; reflexivity.
  - intros fuel rho point p H Hp Hf.
    assert (Hk : exists color, dict_get fuel_color_hex fuel = Some color)
      by (in_cases H; eexists; reflexivity).
    destruct Hk as [color Hk]. exists color. split; [exact Hk |].
    unfold fuel_color. cbn [eval of_py]. rewrite Hp, Hf, dict_get_of_py, Hk.
    reflexivity.
  - exact power_plants_raises.
  - intros s H. now apply power_plants_layers, completed_trace.
  - reflexivity.
  - intros fuel rho point p H Hp Hf.
    unfold fuel_color. cbn [eval of_py].
    rewrite Hp, Hf, dict_get_of_py, (dict_get_None fuel_color_hex fuel H).
    reflexivity.
Qed.

Lemma fuels_have_colors_witness :
  In "Wind" fuels /\
  In "Wind" (keys fuel_color_hex) /\
  In "Wind" (keys fuel_color_rgb) /\
  exists color, forall st, getitem fuel_color_rgb "Wind" st = (Ok color, st).
Proof.
  assert (H : In "Wind" fuels) by (simpl; tauto).
  destruct fuels_have_colors as [Hk [Hg _]].
  split; [exact H |]. split; [exact (proj1 (Hk _ H)) |].
  split; [exact (proj2 (Hk _ H)) | exact (Hg _ H)].
Defined.

(** ** What the constructors receive *)

Lemma not_in_by {A : Type} (f : A -> bool) (x : A) (l : list A) :
  f x = true -> forallb (fun y => negb (f y)) l = true -> ~ In x l.
Proof.
  intros Hx Hl Hin. rewrite forallb_forall in Hl.
  specialize (Hl x Hin). rewrite Hx in Hl. discriminate.
Qed.

Lemma rgb_not_forwarded (tr : list event) :
  In tr (completed_traces power_plants) ->
  ~ forwarded_verbatim tr (Py fuel_color_rgb).
Proof.
  intros H. unfold forwarded_verbatim.
  apply (not_in_by first_value_is_list); [reflexivity |].
  in_cases H; vm_compute; reflexivity.
Qed.

Lemma rgb_entries (tr : list event) :
  In tr (completed_traces power_plants) -> fill_colors tr = fuel_color_rgb.
Proof. intros H. in_cases H; by_eval. Qed.

(** The body of [add_style] hands its dictionary to [ee.Dictionary]. *)
Lemma add_style_dictionary (fc point : ee.ComputedObject) :
  add_style fc point
  = ee.set point "styleProperty"
      (ee.Dictionary (ee.pydict (style_dictionary fc point))).
Proof. reflexivity. Qed.

(** What the calls of a completed run receive. *)
Lemma completed_received (nb : notebook) (tr : list event) :
  In tr (completed_traces nb) -> flat_map received tr = received_dicts nb.
Proof. intros H. destruct nb; in_cases H; by_eval. Qed.

Lemma received_written (nb : notebook) (d : dictionary) :
  In d (received_dicts nb) -> In d (parameter_dicts nb).
Proof.
  intros Hd. destruct nb; [exact Hd | | exact Hd].
  unfold received_dicts in Hd.
  repeat (apply in_app_or in Hd as [Hd | Hd]);
    try (apply in_flat_map in Hd as [fuel [_ Hd]]);
    in_cases Hd; in_head.
Qed.

Lemma written_received (nb : notebook) (d : dictionary) :
  In d (parameter_dicts nb) -> d <> Py fuel_color_rgb ->
  In d (received_dicts nb).
Proof.
  intros Hd Hne. destruct nb; [exact Hd | | exact Hd].
  assert (Hc : In "Coal" fuels) by (now left).
  unfold received_dicts. rewrite !in_app_iff, !in_flat_map.
  in_cases Hd; try (now elim Hne).
  - left. exists "Coal". split; [exact Hc | in_head].
  - left. exists "Coal". split; [exact Hc | in_head].
  - left. exists "Coal". split; [exact Hc | in_head].
  - right. left. now left.
  - right. right. left. exists "Coal". split; [exact Hc | in_head].
Qed.

(** C5, counterexample.  The RGB fuel-to-color mapping of power_plants.ipynb
    is a parameter dictionary that no layer constructor and no widget
    receives. *)
Lemma all_forwarded_verbatim_fails :
  In (Py fuel_color_rgb) (parameter_dicts power_plants) /\
  ~ forwarded_verbatim (trace (program power_plants) stored_credentials)
      (Py fuel_color_rgb) /\
  ~ all_forwarded_verbatim power_plants.
Proof.
  assert (Hin : In (Py fuel_color_rgb) (parameter_dicts power_plants))
    by (simpl; auto 10).
  assert (Hn : ~ forwarded_verbatim
                   (trace (program power_plants) stored_credentials)
                   (Py fuel_color_rgb))
    by (apply rgb_not_forwarded; simpl; auto).
  split; [exact Hin |]. split; [exact Hn |].
  intros H. exact (Hn (H _ Hin)).
Qed.

(** C5, amended.  In a run that completes, every parameter dictionary of the
    notebook other than the RGB fuel-to-color mapping reaches a layer
    constructor or the widget with exactly the key-value pairs written: the
    view states, the style properties, the hex fuel-to-color mapping and the
    style dictionary of [add_style], the last two inside the description of
    the mapped collection.  Nothing else is received: the dictionaries that
    the constructors and the widgets receive are those of [received_dicts],
    each of them one of those written.  The RGB mapping is not forwarded as a
    dictionary: the notebook indexes it, and each of its entries, unchanged
    and in order, reaches one layer as that layer's id and get_fill_color. *)
Theorem parameter_dicts_forwarded (nb : notebook) (s : list (option exn)) :
  outcome (program nb) s = Ok tt ->
  let tr := trace (program nb) s in
  (forall d, In d (parameter_dicts nb) -> d <> Py fuel_color_rgb ->
             forwarded_verbatim tr d) /\
  flat_map received tr = received_dicts nb /\
  (forall d, forwarded_verbatim tr d -> In d (parameter_dicts nb)) /\
  (nb = power_plants ->
     ~ forwarded_verbatim tr (Py fuel_color_rgb) /\
     fill_colors tr = fuel_color_rgb).
Proof.
  intros H tr. apply completed_trace in H. fold tr in H.
  pose proof (completed_received nb tr H) as E.
  split; [| split; [| split]].
  - intros d Hd Hne. unfold forwarded_verbatim. rewrite E.
    now apply written_received.
  - exact E.
  - intros d Hd. unfold forwarded_verbatim in Hd. rewrite E in Hd.
    now apply received_written.
  - intros ->. split; [now apply rgb_not_forwarded | now apply rgb_entries].
Qed.

Lemma parameter_dicts_forwarded_witness :
  outcome (program power_plants) no_credentials = Ok tt /\
  forwarded_verbatim (trace (program power_plants) no_credentials)
    (Ee (style_dictionary fuel_color ee.var)) /\
  forwarded_verbatim (trace (program power_plants) no_credentials)
    (Py fuel_color_hex).
Proof.
  assert (H1 : In (Ee (style_dictionary fuel_color ee.var))
                  (parameter_dicts power_plants)) by in_head.
  assert (H2 : In (Py fuel_color_hex) (parameter_dicts power_plants))
    by in_head.
  assert (N1 : Ee (style_dictionary fuel_color ee.var) <> Py fuel_color_rgb)
    by discriminate.
  assert (N2 : Py fuel_color_hex <> Py fuel_color_rgb) by discriminate.
  split; [reflexivity |].
  split.
  - exact (proj1 (parameter_dicts_forwarded power_plants no_credentials eq_refl)
             _ H1 N1).
  - exact (proj1 (parameter_dicts_forwarded power_plants no_credentials eq_refl)
             _ H2 N2).
Defined.

(** C6, counterexample.  The second layer of Introduction.ipynb receives the
    value that the notebook's own function [Hillshade] computes (from
    [Radians]): not literal configuration. *)
Lemma only_literal_configuration_fails :
  In {| layer_oid := 2;
        ee_object := Hillshade (PInt 0) (PInt 60) slope_img aspect_img;
        layer_kwargs := [] |}
     (constructed (trace (program Introduction) stored_credentials)) /\
  literal_config (Hillshade (PInt 0) (PInt 60) slope_img aspect_img) = false /\
  ~ only_literal_configuration (trace (program Introduction) stored_credentials).
Proof.
  assert (Hin : In {| layer_oid := 2;
                      ee_object := Hillshade (PInt 0) (PInt 60) slope_img aspect_img;
                      layer_kwargs := [] |}
                   (constructed (trace (program Introduction) stored_credentials)))
    by (vm_compute; in_head).
  split; [exact Hin |]. split; [reflexivity |].
  intros H. specialize (H _ Hin). discriminate H.
Qed.

Lemma completed_objects (nb : notebook) (tr : list event) :
  In tr (completed_traces nb) -> objects tr = handed_objects nb.
Proof. intros H. destruct nb; in_cases H; by_eval. Qed.

Lemma handed_literal_or_derived (nb : notebook) (t : ee.ComputedObject) :
  In t (handed_objects nb) ->
  literal_config t = true \/ In t derived_objects.
Proof.
  intros H. destruct nb; unfold handed_objects in H.
  - destruct H as [<- | [<- | []]]; [left; reflexivity | right; now left].
  - apply in_app_or in H as [H | H].
    + right. right. exact H.
    + apply in_map_iff in H as [fuel [<- _]]. left. reflexivity.
  - destruct H as [<- | []]. left. reflexivity.
Qed.

(** C6, amended.  In a run that completes, the Earth Engine objects handed
    to the layer constructor are exactly those of [handed_objects]: each is
    literal configuration or is one of the values the notebooks' own
    functions compute, namely the result of [Hillshade] (built with
    [Radians]) in Introduction.ipynb and the collection mapped through
    [add_style] in the first loop of power_plants.ipynb; and these computed
    values do reach the constructor. *)
Theorem literal_or_derived (nb : notebook) (s : list (option exn)) :
  outcome (program nb) s = Ok tt ->
  let tr := trace (program nb) s in
  objects tr = handed_objects nb /\
  (forall t, In t (objects tr) ->
     literal_config t = true \/ In t derived_objects) /\
  (nb = Introduction ->
     In (Hillshade (PInt 0) (PInt 60) slope_img aspect_img) (objects tr)) /\
  (nb = power_plants ->
     forall t, In t (tl derived_objects) -> In t (objects tr)).
Proof.
  intros H tr. apply completed_trace, completed_objects in H. fold tr in H.
  rewrite H. split; [reflexivity |]. split; [| split].
  - apply handed_literal_or_derived.
  - intros ->. right. now left.
  - intros -> t Ht. apply in_or_app. now left.
Qed.

Lemma literal_or_derived_witness :
  outcome (program Introduction) stored_credentials = Ok tt /\
  In (Hillshade (PInt 0) (PInt 60) slope_img aspect_img)
     (objects (trace (program Introduction) stored_credentials)).
Proof.
  split; [reflexivity |].
  exact (proj1 (proj2 (proj2
           (literal_or_derived Introduction stored_credentials eq_refl)))
           eq_refl).
Defined.

(** ** Deterministic, side-effect-free logic *)

Lemma pure_ret {A : Type} (a : A) : pure_action (ret a).
Proof. exists (Ok a). reflexivity. Qed.

Lemma pure_raise {A : Type} (e : exn) : pure_action (@raise A e).
Proof. exists (Raise e). reflexivity. Qed.

(** Purity goes through sequencing. *)
Lemma pure_bind {A B : Type} (m : M A) (k : A -> M B) :
  pure_action m -> (forall a, pure_action (k a)) -> pure_action (bind m k).
Proof.
  intros [[a|e] Hm] Hk.
  - destruct (Hk a) as [r Hr]. exists r. intros st.
    unfold bind. rewrite Hm. apply Hr.
  - exists (Raise e). intros st. unfold bind. now rewrite Hm.
Qed.

(** Python's part of a call is pure: the lookup of the method, and [get] on
    a Python dict. *)
Lemma pure_getattr (c : client) (name : string) (recv : pyobj) :
  pure_action (getattr c name recv).
Proof.
  destruct recv as [t|v]; simpl.
  - destruct (has_method c name t); [apply pure_ret | apply pure_raise].
  - destruct v; try apply pure_raise.
    destruct (String.eqb name "get"); [apply pure_ret | apply pure_raise].
Qed.

Lemma pure_dict_get_method (d : dict) (a : list pyobj) :
  pure_action (dict_get_method d a).
Proof.
  assert (H : forall key default,
             pure_action
               (match key with
                | Val (PStr k) =>
                    ret (match dict_get d k with
                         | Some v => Val v
                         | None => default
                         end)
                | Val (PList _) | Val (PDict _) => raise TypeError
                | _ => ret default
                end)).
  { intros [t|v] default; [apply pure_ret |].
    destruct v; first [apply pure_ret | apply pure_raise]. }
  unfold dict_get_method.
  destruct a as [|key [|default [|x a]]];
    first [apply pure_raise | apply H].
Qed.

Section PureClient.

Variable c : client.
Hypothesis client_is_pure : pure_client c.

Lemma pure_invoke (name : string) (recv : pyobj) (a : list pyobj) :
  pure_action (invoke c name recv a).
Proof.
  destruct recv as [t|v]; simpl.
  - apply client_is_pure.
  - destruct v; first [apply pure_raise | apply pure_dict_get_method].
Qed.

Lemma pure_call_method (name : string) (recv : pyobj) (a : list pyobj) :
  pure_action (call_method c name recv a).
Proof.
  apply pure_bind; [apply pure_getattr | intros _; apply pure_invoke].
Qed.

Lemma pure_new_Image (x : pyobj) : pure_action (new_Image c x).
Proof. apply client_is_pure. Qed.

Lemma pure_new_Number (x : pyobj) : pure_action (new_Number c x).
Proof. apply client_is_pure. Qed.

Lemma pure_new_Dictionary (items : list (string * pyobj)) :
  pure_action (new_Dictionary c items).
Proof. apply client_is_pure. Qed.

(** A sequence of pure calls, step by step. *)
Ltac pure_steps :=
  repeat first
    [ apply pure_call_method | apply pure_invoke | apply pure_getattr
    | apply pure_new_Image | apply pure_new_Number | apply pure_new_Dictionary
    | apply pure_bind; [| intros ?] ].

Lemma py_Radians_pure (img : pyobj) : pure_action (py_Radians c img).
Proof. unfold py_Radians. pure_steps. Qed.

Lemma py_Hillshade_pure (az ze slope aspect : pyobj) :
  pure_action (py_Hillshade c az ze slope aspect).
Proof.
  unfold py_Hillshade.
  repeat first [ apply py_Radians_pure | progress pure_steps ].
Qed.

Lemma py_add_style_pure (fuel_color point : pyobj) :
  pure_action (py_add_style c fuel_color point).
Proof. unfold py_add_style. pure_steps. Qed.

End PureClient.

Lemma fuel_color_lookup_pure : deterministic_and_pure fuel_color_lookup.
Proof.
  intros fuel. simpl. unfold getitem.
  destruct (dict_get fuel_color_rgb fuel) as [v|];
    [apply pure_ret | apply pure_raise].
Qed.

Lemma defined_functions_pure (c : client) :
  pure_client c -> Forall deterministic_and_pure (defined_functions c).
Proof.
  intros Hc. repeat constructor.
  - intros img. now apply py_Radians_pure.
  - intros [[[az ze] slope] aspect]. now apply py_Hillshade_pure.
  - intros [fc point]. now apply py_add_style_pure.
  - exact fuel_color_lookup_pure.
Qed.

Lemma ee_client_pure : pure_client ee_client.
Proof.
  repeat split; intros; simpl; try apply pure_ret.
  destruct (build name t a); [apply pure_ret | apply pure_raise].
Qed.

(** With the client that builds descriptions, the functions build the
    descriptions [Radians], [Hillshade] and [add_style]. *)
Lemma py_Radians_builds (img : ee.ComputedObject) :
  py_Radians ee_client (Obj img) = ret (Obj (Radians img)).
Proof. reflexivity. Qed.

Lemma py_Hillshade_builds (az ze : pyval) (slope aspect : ee.ComputedObject) :
  py_Hillshade ee_client (Val az) (Val ze) (Obj slope) (Obj aspect)
  = ret (Obj (Hillshade az ze slope aspect)).
Proof. reflexivity. Qed.

Lemma py_add_style_builds (fc point : ee.ComputedObject) :
  py_add_style ee_client (Obj fc) (Obj point) = ret (Obj (add_style fc point)).
Proof. reflexivity. Qed.

(** A plain Python value has no [toFloat]. *)
Lemma py_Radians_AttributeError (v : pyval) :
  py_Radians ee_client (Val v) = raise AttributeError.
Proof. destruct v; reflexivity. Qed.

(** Under the second binding of [fuel_color], a Python dict, [get] is
    [dict.get]: the key is a client object, no key of the dict, and the color
    is [None]. *)
Lemma py_add_style_dict (d : dict) (point : ee.ComputedObject) :
  py_add_style ee_client (Val (PDict d)) (Obj point)
  = ret (Obj (ee.set point "styleProperty"
                (ee.Dictionary
                   (ee.pydict
                      [("pointSize",
                        ee.add (ee.divide
                                  (ee.sqrt (ee.Number
                                              (ee.get point (PStr "capacitymw"))))
                                  (PInt 10))
                               (PInt 2));
                       ("color", ee.lit PNone)])))).
Proof. reflexivity. Qed.

(** With a client whose method calls leave a mark, [Radians] leaves one. *)
Lemma numbering_Radians_not_pure :
  ~ deterministic_and_pure (def_Radians numbering_client).
Proof.
  intros H. destruct (H (Obj ee.var)) as [r Hr].
  specialize (Hr {| script := []; log := []; next_oid := 0 |}).
  apply (f_equal (fun x => next_oid (snd x))) in Hr.
  vm_compute in Hr. discriminate Hr.
Qed.

(** C7, counterexample.  [fuel_color[fuel]] is defined in the notebooks and
    two evaluations of it on equal inputs yield equal outcomes without side
    effects, whatever the client does; with the client that builds
    descriptions so does [Hillshade]. *)
Lemma no_deterministic_pure_logic_fails :
  deterministic_and_pure fuel_color_lookup /\
  deterministic_and_pure (def_Hillshade ee_client) /\
  (forall c, In fuel_color_lookup (defined_functions c)) /\
  (forall c, ~ no_deterministic_pure_logic c).
Proof.
  assert (Hin : forall c, In fuel_color_lookup (defined_functions c))
    by (intros c; simpl; auto).
  split; [exact fuel_color_lookup_pure |].
  split; [intros [[[az ze] slope] aspect];
          apply py_Hillshade_pure, ee_client_pure |].
  split; [exact Hin |].
  intros c H. exact (H _ (Hin c) fuel_color_lookup_pure).
Qed.

(** C7, amended.  The repository does contain deterministic,
    side-effect-free logic.  The [fuel_color] lookup is Python alone: it is
    deterministic and side-effect-free by itself.  [Radians], [Hillshade] and
    [add_style] are sequences of calls to the Earth Engine client and add
    nothing of their own: with any client whose constructors and methods are
    deterministic and side-effect-free, two evaluations of them on equal
    inputs yield equal outcomes (a result, or an exception such as the
    AttributeError of [Radians] on a plain number) and leave the world as it
    was.  The client that only builds descriptions is such a client, and with
    it the functions return the descriptions [Radians], [Hillshade] and
    [add_style] (under the Python-dict binding of [fuel_color], [add_style]
    stores the color [None]).  The guarantee is the client's: with a client
    whose method calls leave a mark, [Radians] leaves one. *)
Theorem deterministic_pure_logic :
  deterministic_and_pure fuel_color_lookup /\
  (forall c, pure_client c ->
             Forall deterministic_and_pure (defined_functions c)) /\
  pure_client ee_client /\
  (forall img,
     call (def_Radians ee_client) (Obj img) = ret (Obj (Radians img))) /\
  (forall v, call (def_Radians ee_client) (Val v) = raise AttributeError) /\
  (forall az ze slope aspect,
     call (def_Hillshade ee_client) (Val az, Val ze, Obj slope, Obj aspect)
     = ret (Obj (Hillshade az ze slope aspect))) /\
  (forall fc point,
     call (def_add_style ee_client) (Obj fc, Obj point)
     = ret (Obj (add_style fc point))) /\
  (forall point,
     exists size,
       call (def_add_style ee_client) (Val (PDict fuel_color_rgb), Obj point)
       = ret (Obj (ee.set point "styleProperty"
                     (ee.Dictionary
                        (ee.pydict [("pointSize", size);
                                    ("color", ee.lit PNone)]))))) /\
  ~ deterministic_and_pure (def_Radians numbering_client).
Proof.
  split; [exact fuel_color_lookup_pure |].
  split; [exact defined_functions_pure |].
  split; [exact ee_client_pure |].
  split; [exact py_Radians_builds |].
  split; [exact py_Radians_AttributeError |].
  split; [exact py_Hillshade_builds |].
  split; [exact py_add_style_builds |].
  split; [| exact numbering_Radians_not_pure].
  intros point. eexists. apply py_add_style_dict.
Qed.

Lemma deterministic_pure_logic_witness :
  pure_client ee_client /\
  Forall deterministic_and_pure (defined_functions ee_client).
Proof.
  destruct deterministic_pure_logic as [_ [H [Hc _]]].
  split; [exact Hc | exact (H ee_client Hc)].
Defined.

(** * Further properties of the functions *)

Local Open Scope R_scope.

(** X2.  On flat ground (slope 0) the hillshade is the cosine of the zenith
    angle, whatever the azimuth of the light and the aspect of the ground. *)
Theorem Hillshade_flat_ground (rho : env) (az ze : pyval)
    (slope aspect : ee.ComputedObject) (a z p : R) :
  of_py az = VNum a ->
  of_py ze = VNum z ->
  eval rho slope = DValue (VNum 0) ->
  eval rho aspect = DValue (VNum p) ->
  eval rho (Hillshade az ze slope aspect) = DValue (VNum (cos (z * PI / 180))).
Proof.
  intros Ha Hz Hs Hp.
  rewrite (eval_Hillshade rho az ze slope aspect a z 0 p Ha Hz Hs Hp).
  unfold hillshade_reference, radians. do 2 f_equal.
  rewrite sin_0, cos_0. ring.
Qed.

Lemma Hillshade_flat_ground_witness :
  eval sample_pixel
       (Hillshade (PInt 315) (PInt 45) (Radians (ee.Image (PInt 0))) aspect_img)
  = DValue (VNum (cos (45 * PI / 180))).
Proof.
  apply (Hillshade_flat_ground sample_pixel (PInt 315) (PInt 45) _ aspect_img
           315 45 (radians 180)); try reflexivity.
  simpl. unfold radians. do 2 f_equal. field.
Defined.

(** X4.  Styling twice is styling once: [add_style] reads only 'capacitymw'
    and 'fuel1', which it leaves alone, and overwrites the 'styleProperty' it
    wrote. *)
Theorem add_style_idempotent (rho : env) (fc point : ee.ComputedObject)
    (p : feature) :
  eval rho point = DFeature p ->
  eval rho (add_style fc (add_style fc point)) = eval rho (add_style fc point).
Proof.
  intros Hp.
  assert (E : exists v, eval rho (add_style fc point)
                        = DFeature {| geometry_of := geometry_of p;
                                      properties := <["styleProperty" := v]> (properties p) |}
              /\ forall q, properties q !! "capacitymw" = properties p !! "capacitymw" ->
                           properties q !! "fuel1" = properties p !! "fuel1" ->
                           forall pt, eval rho pt = DFeature q ->
                           eval rho (add_style fc pt)
                           = DFeature {| geometry_of := geometry_of q;
                                         properties := <["styleProperty" := v]> (properties q) |}).
  { eexists. split.
    - unfold add_style. cbn [eval List.map fst snd of_py]. rewrite Hp. reflexivity.
    - intros q Hc Hf pt Hq. unfold add_style.
      cbn [eval List.map fst snd of_py]. rewrite Hq, Hc, Hf. reflexivity. }
  destruct E as [v [E1 E2]].
  set (q := {| geometry_of := geometry_of p;
               properties := <["styleProperty" := v]> (properties p) |}) in *.
  assert (Hc : properties q !! "capacitymw" = properties p !! "capacitymw")
    by (cbn [q properties]; now rewrite lookup_insert_ne).
  assert (Hf : properties q !! "fuel1" = properties p !! "fuel1")
    by (cbn [q properties]; now rewrite lookup_insert_ne).
  rewrite (E2 q Hc Hf _ E1), E1.
  unfold q. cbn [geometry_of properties]. now rewrite insert_insert_eq.
Qed.

Lemma add_style_idempotent_witness :
  eval sample_element (add_style fuel_color (add_style fuel_color ee.var))
  = eval sample_element (add_style fuel_color ee.var).
Proof.
  exact (add_style_idempotent sample_element fuel_color ee.var sample_plant eq_refl).
Defined.

(** * The two palettes of power_plants.ipynb *)

(** X11.  The two bindings of [fuel_color] name the same colors: for every
    fuel of the list, the hexadecimal string the first one gives, read as
    red, green and blue, is the list of three numbers the second one gives.
    Both have the fuels of the list as their keys, in that order, each
    once. *)
Theorem palettes_agree (fuel : string) :
  In fuel fuels ->
  exists hex color,
    dict_get fuel_color_hex fuel = Some hex /\
    hex_color hex = Some color /\
    dict_get fuel_color_rgb fuel = Some color /\
    keys fuel_color_hex = fuels /\
    keys fuel_color_rgb = fuels /\
    List.NoDup fuels.
Proof.
  assert (Hnd : List.NoDup fuels).
  { unfold fuels.
    repeat (constructor; [simpl; intuition discriminate |]).
    constructor. }
  intros H. in_cases H;
    (do 2 eexists; split; [reflexivity |]; split; [reflexivity |];
     split; [reflexivity |]; split; [reflexivity |];
     split; [reflexivity | exact Hnd]).
Qed.

Lemma palettes_agree_witness :
  In "Wind" fuels /\
  exists hex color,
    dict_get fuel_color_hex "Wind" = Some hex /\
    hex_color hex = Some color /\
    dict_get fuel_color_rgb "Wind" = Some color /\
    keys fuel_color_hex = fuels /\
    keys fuel_color_rgb = fuels /\
    List.NoDup fuels.
Proof.
  assert (H : In "Wind" fuels) by (simpl; tauto).
  split; [exact H | exact (palettes_agree "Wind" H)].
Defined.

(** * The data of the layers of power_plants.ipynb *)

Lemma all_some_total {A B : Type} (g : A -> option B) (h : A -> B) (l : list A) :
  (forall x, In x l -> g x = Some (h x)) -> all_some g l = Some (List.map h l).
Proof.
  induction l as [|x l IH]; intros H; simpl; [reflexivity |].
  rewrite (H x (or_introl eq_refl)), IH; [reflexivity |].
  intros y Hy. apply H. now right.
Qed.

Lemma eval_styled (rho : env) (f : feature) :
  exists v,
    eval (with_element rho f) (add_style fuel_color ee.var)
    = DFeature {| geometry_of := geometry_of f;
                  properties := <["styleProperty" := v]> (properties f) |}.
Proof. eexists. reflexivity. Qed.

Lemma styled_shape (rho : env) (f : feature) :
  exists v,
    styled rho f = {| geometry_of := geometry_of f;
                      properties := <["styleProperty" := v]> (properties f) |} /\
    eval (with_element rho f) (add_style fuel_color ee.var)
    = DFeature (styled rho f).
Proof.
  destruct (eval_styled rho f) as [v E]. exists v.
  unfold styled. rewrite E. split; reflexivity.
Qed.

Lemma has_property_styled (rho : env) (name v : string) (f : feature) :
  name <> "styleProperty" ->
  has_property name v (styled rho f) = has_property name v f.
Proof.
  intros Hn. destruct (styled_shape rho f) as [sp [-> _]].
  unfold has_property. cbn [properties].
  rewrite lookup_insert_ne by congruence. reflexivity.
Qed.

Lemma filter_map_commute {A B : Type} (P : B -> bool) (g : A -> B) (l : list A) :
  List.filter P (List.map g l) = List.map g (List.filter (fun x => P (g x)) l).
Proof.
  induction l as [|x l IH]; simpl; [reflexivity |].
  destruct (P (g x)); simpl; now rewrite IH.
Qed.

Lemma elements_pp (db : string -> list feature) (rho : env) :
  elements db rho pp
  = Some (List.map (styled rho) (db "WRI/GPPD/power_plants")).
Proof.
  unfold pp, ee.map, table. cbn [elements].
  apply all_some_total. intros f _.
  destruct (styled_shape rho f) as [v [_ ->]]. reflexivity.
Qed.

Lemma elements_raster (db : string -> list feature) (rho : env) (fuel : string) :
  elements db rho (ee.filter pp (ee.Filter_eq "fuel1" (PStr fuel)))
  = Some (List.map (styled rho)
            (List.filter (has_property "fuel1" fuel)
                         (db "WRI/GPPD/power_plants"))).
Proof.
  cbn [elements]. rewrite elements_pp, filter_map_commute.
  do 2 f_equal. apply filter_ext. intros f.
  apply has_property_styled. discriminate.
Qed.

Lemma elements_vector (db : string -> list feature) (rho : env) (fuel : string) :
  elements db rho (ee.filter table (ee.Filter_eq "fuel1" (PStr fuel)))
  = Some (List.filter (has_property "fuel1" fuel) (db "WRI/GPPD/power_plants")).
Proof. reflexivity. Qed.

(** X12.  Filtering the styled collection selects the same plants as
    filtering the table: the data of the first loop's layer for a fuel is the
    data of the second loop's layer for that fuel, mapped through
    [add_style]. *)
Theorem filter_after_style (db : string -> list feature) (rho : env)
    (fuel : string) :
  elements db rho (ee.filter pp (ee.Filter_eq "fuel1" (PStr fuel)))
  = elements db rho
      (ee.map (ee.filter table (ee.Filter_eq "fuel1" (PStr fuel)))
              (add_style fuel_color)) /\
  exists plants,
    elements db rho (ee.filter table (ee.Filter_eq "fuel1" (PStr fuel)))
      = Some plants /\
    elements db rho (ee.filter pp (ee.Filter_eq "fuel1" (PStr fuel)))
      = Some (List.map (styled rho) plants).
Proof.
  split.
  - rewrite elements_raster. unfold ee.map. cbn [elements].
    unfold table at 1. cbn [elements]. symmetry.
    apply all_some_total. intros f _.
    destruct (styled_shape rho f) as [v [_ ->]]. reflexivity.
  - eexists. split; [apply elements_vector | apply elements_raster].
Qed.

(** * The loops of power_plants.ipynb *)

Local Open Scope nat_scope.

(** The loops of the notebook are these bodies, run over [fuels]. *)
Lemma power_plants_loops :
  power_plants_nb =
  (init_retry ;;
   layers <- for_in fuels raster_body [] ;;
   r <- new_Deck layers
          (pdk.mkViewState [("latitude", PInt 36); ("longitude", PInt (-53));
                            ("zoom", PInt 3)]) ;;
   show r ;;
   layers <- for_in fuels (vector_body fuel_color_rgb) [] ;;
   r <- new_Deck layers
          (pdk.mkViewState [("latitude", PInt 36); ("longitude", PInt (-53));
                            ("zoom", PInt 3)]) ;;
   show r).
Proof. reflexivity. Qed.

Lemma for_in_app {A S : Type} (xs ys : list A) (body : A -> S -> M S) (s : S)
    (st : state) :
  for_in (xs ++ ys) body s st
  = match for_in xs body s st with
    | (Ok s', st') => for_in ys body s' st'
    | (Raise e, st') => (Raise e, st')
    end.
Proof.
  revert s st. induction xs as [|x xs IH]; intros s st; simpl; [reflexivity |].
  unfold bind. destruct (body x s st) as [[s'|e] st']; [apply IH | reflexivity].
Qed.

Lemma after_layers_nil (st : state) : calm st -> after_layers st [] = st.
Proof.
  destruct st as [sc lg n]. unfold calm, after_layers. simpl. intros ->.
  now rewrite Nat.add_0_r.
Qed.

Lemma after_layers_cons (st : state) (l : EarthEngineLayer)
    (ls : list EarthEngineLayer) :
  after_layers (after_layers st [l]) ls = after_layers st (l :: ls).
Proof.
  unfold after_layers. simpl. f_equal.
  - now rewrite <- !app_assoc.
  - lia.
Qed.

Lemma vector_body_step (fc : dict) (fuel : string) (color : pyval)
    (acc : list EarthEngineLayer) (st : state) :
  calm st -> dict_get fc fuel = Some color ->
  exists l,
    vector_body fc fuel acc st = (Ok (acc ++ [l]), after_layers st [l]) /\
    layer_oid l = next_oid st /\
    layer_id l = Some (PStr fuel) /\
    layer_fill_color l = Some color /\
    ee_object l = ee.filter table (ee.Filter_eq "fuel1" (PStr fuel)).
Proof.
  destruct st as [sc lg n]. unfold calm. simpl. intros -> Hc.
  eexists. unfold vector_body, getitem. rewrite Hc.
  split.
  - unfold after_layers. cbn. rewrite Nat.add_1_r. reflexivity.
  - repeat split; reflexivity.
Qed.

Lemma raster_body_step (fuel : string) (acc : list EarthEngineLayer)
    (st : state) :
  calm st ->
  exists l,
    raster_body fuel acc st = (Ok (acc ++ [l]), after_layers st [l]) /\
    layer_oid l = next_oid st /\
    layer_id l = Some (PStr fuel).
Proof.
  destruct st as [sc lg n]. unfold calm. simpl. intros ->.
  eexists. unfold raster_body.
  split.
  - unfold after_layers. cbn. rewrite Nat.add_1_r. reflexivity.
  - repeat split; reflexivity.
Qed.

Lemma calm_after (st : state) (ls : list EarthEngineLayer) :
  calm (after_layers st ls).
Proof. reflexivity. Qed.

(** X5.  The second loop, over any list of fuels that all have a color and
    in a world where the constructor succeeds: it constructs exactly one
    layer per fuel, in order, each with that fuel as its id, that fuel's
    entry of [fuel_color] as its fill color and the plants of that fuel as
    its data; the layers are new objects, and nothing else is called. *)
Theorem vector_loop_layers (fc : dict) (fs : list string)
    (acc : list EarthEngineLayer) (st : state) :
  calm st ->
  (forall fuel, In fuel fs -> exists color, dict_get fc fuel = Some color) ->
  exists ls,
    for_in fs (vector_body fc) acc st = (Ok (acc ++ ls), after_layers st ls) /\
    List.map layer_id ls = List.map (fun fuel => Some (PStr fuel)) fs /\
    List.map layer_fill_color ls = List.map (dict_get fc) fs /\
    List.map ee_object ls
      = List.map (fun fuel => ee.filter table (ee.Filter_eq "fuel1" (PStr fuel))) fs /\
    List.map layer_oid ls = seq (next_oid st) (length fs).
Proof.
  revert acc st. induction fs as [|fuel fs IH]; intros acc st Hst Hk.
  - exists []. rewrite app_nil_r, after_layers_nil by exact Hst.
    repeat split.
  - destruct (Hk fuel (or_introl eq_refl)) as [color Hc].
    destruct (vector_body_step fc fuel color acc st Hst Hc)
      as [l [E [Ho [Hi [Hf Hobj]]]]].
    destruct (IH (acc ++ [l]) (after_layers st [l]) (calm_after _ _)
                 (fun f Hf' => Hk f (or_intror Hf')))
      as [ls [E' [Hi' [Hf' [Hobj' Ho']]]]].
    exists (l :: ls). simpl for_in. unfold bind at 1. rewrite E, E'.
    rewrite <- app_assoc, after_layers_cons. simpl.
    split; [reflexivity |].
    rewrite Hi, Hi', Hf, Hf', Hc, Hobj, Hobj', Ho, Ho'.
    repeat split. f_equal. f_equal. unfold after_layers. simpl. lia.
Qed.

Lemma vector_loop_layers_witness :
  exists ls,
    for_in fuels (vector_body fuel_color_rgb) []
           {| script := []; log := []; next_oid := 0 |}
    = (Ok ([] ++ ls),
       after_layers {| script := []; log := []; next_oid := 0 |} ls) /\
    List.map layer_id ls = List.map (fun fuel => Some (PStr fuel)) fuels.
Proof.
  destruct (vector_loop_layers fuel_color_rgb fuels []
              {| script := []; log := []; next_oid := 0 |} eq_refl)
    as [ls [E [Hi _]]].
  - intros fuel H. in_cases H; eexists; reflexivity.
  - exists ls. split; assumption.
Defined.

(** X6.  A fuel without a color stops the second loop: [fuel_color[fuel]]
    raises KeyError before the layer of that fuel is constructed.  The layers
    of the fuels before it were constructed, one each; no layer is
    constructed for the fuel or for those after it. *)
Theorem vector_loop_KeyError (fc : dict) (pre post : list string)
    (fuel : string) (acc : list EarthEngineLayer) (st : state) :
  calm st ->
  (forall f, In f pre -> exists color, dict_get fc f = Some color) ->
  dict_get fc fuel = None ->
  exists ls,
    for_in (pre ++ fuel :: post) (vector_body fc) acc st
    = (Raise (Exception "KeyError"), after_layers st ls) /\
    List.map layer_id ls = List.map (fun f => Some (PStr f)) pre.
Proof.
  intros Hst Hk Hnone.
  destruct (vector_loop_layers fc pre acc st Hst Hk) as [ls [E [Hi _]]].
  exists ls. split; [| exact Hi].
  rewrite for_in_app, E. simpl for_in. unfold bind at 1.
  unfold vector_body, getitem. rewrite Hnone. reflexivity.
Qed.

Lemma vector_loop_KeyError_witness :
  exists ls,
    for_in (["Coal"; "Oil"] ++ "Other" :: ["Gas"]) (vector_body fuel_color_rgb) []
           {| script := []; log := []; next_oid := 0 |}
    = (Raise (Exception "KeyError"),
       after_layers {| script := []; log := []; next_oid := 0 |} ls) /\
    List.map layer_id ls = [Some (PStr "Coal"); Some (PStr "Oil")].
Proof.
  apply (vector_loop_KeyError fuel_color_rgb ["Coal"; "Oil"] ["Gas"] "Other" []
           {| script := []; log := []; next_oid := 0 |}).
  - reflexivity.
  - intros f H. in_cases H; eexists; reflexivity.
  - reflexivity.
Defined.

(** X7.  The first loop has no lookup of its own: over any list of fuels, in
    a world where the constructor succeeds, it completes with exactly one
    layer per fuel, in order, with that fuel as its id. *)
Theorem raster_loop_layers (fs : list string) (acc : list EarthEngineLayer)
    (st : state) :
  calm st ->
  exists ls,
    for_in fs raster_body acc st = (Ok (acc ++ ls), after_layers st ls) /\
    List.map layer_id ls = List.map (fun fuel => Some (PStr fuel)) fs /\
    List.map layer_oid ls = seq (next_oid st) (length fs).
Proof.
  revert acc st. induction fs as [|fuel fs IH]; intros acc st Hst.
  - exists []. rewrite app_nil_r, after_layers_nil by exact Hst.
    repeat split.
  - destruct (raster_body_step fuel acc st Hst) as [l [E [Ho Hi]]].
    destruct (IH (acc ++ [l]) (after_layers st [l]) (calm_after _ _))
      as [ls [E' [Hi' Ho']]].
    exists (l :: ls). simpl for_in. unfold bind at 1. rewrite E, E'.
    rewrite <- app_assoc, after_layers_cons. simpl.
    split; [reflexivity |].
    rewrite Hi, Hi', Ho, Ho'.
    repeat split. f_equal. f_equal. unfold after_layers. simpl. lia.
Qed.

Lemma raster_loop_layers_witness :
  exists ls,
    for_in ["Other"; "Petcoke"] raster_body []
           {| script := []; log := []; next_oid := 0 |}
    = (Ok ([] ++ ls),
       after_layers {| script := []; log := []; next_oid := 0 |} ls) /\
    List.map layer_id ls = [Some (PStr "Other"); Some (PStr "Petcoke")].
Proof.
  destruct (raster_loop_layers ["Other"; "Petcoke"] []
              {| script := []; log := []; next_oid := 0 |} eq_refl)
    as [ls [E [Hi _]]].
  exists ls. split; assumption.
Defined.

(** * More on the runs of the notebooks *)

Local Open Scope nat_scope.

Lemma Introduction_raises (s : list (option exn)) (e : exn) :
  outcome (program Introduction) s = Raise e -> In (Some e) s.
Proof.
  intros H. simpl program in H.
  do 8 (script_case s ltac:(raised_by_script H) ltac:(raised_by_script H)).
  raised_by_script H.
Qed.

Lemma intl_boundary_raises (s : list (option exn)) (e : exn) :
  outcome (program intl_boundary) s = Raise e -> In (Some e) s.
Proof.
  intros H. simpl program in H.
  destruct s as [|[e0|] s].
  - raised_by_script H.
  - destruct e0; [raised_by_script H | raised_by_script H | raised_by_script H |].
    right.
    do 5 (script_case s ltac:(raised_by_script H) ltac:(raised_by_script H)).
    raised_by_script H.
  - do 3 (script_case s ltac:(raised_by_script H) ltac:(raised_by_script H)).
    raised_by_script H.
Qed.

(** X8.  No notebook raises anything of its own: whatever a run raises is
    an exception that one of its outside calls raised. *)
Theorem raised_outside (nb : notebook) (s : list (option exn)) (e : exn) :
  outcome (program nb) s = Raise e -> In (Some e) s.
Proof.
  destruct nb;
    [apply Introduction_raises | apply power_plants_raises
    | apply intl_boundary_raises].
Qed.

Lemma raised_outside_witness :
  outcome (program Introduction) [None; None; Some (Exception "EEException")]
    = Raise (Exception "EEException") /\
  In (Some (Exception "EEException"))
     [None; None; Some (Exception "EEException")].
Proof.
  split; [reflexivity |].
  apply (raised_outside Introduction _ (Exception "EEException")). reflexivity.
Defined.

(** A completed run, read as far as the run read its script. *)
Ltac nothing_swallowed H :=
  first
    [ vm_compute in H; discriminate H
    | vm_compute; split;
      [ repeat constructor
      | let e := fresh "e" in let He := fresh "He" in
        intros e He;
        first [ discriminate He
              | injection He as <-; split; reflexivity ] ] ].

(** X9.  No notebook swallows an error.  In a run that completes, every
    outside call returned normally, except possibly the very first call of a
    notebook with the fallback, and then what it raised was an instance of
    [Exception]. *)
Theorem nothing_swallowed_but_first (nb : notebook) (s : list (option exn)) :
  outcome (program nb) s = Ok tt ->
  Forall (fun o => o = None) (tl (outcomes_read (program nb) s)) /\
  (forall e, hd_error (outcomes_read (program nb) s) = Some (Some e) ->
             has_fallback nb = true /\ isinstance_Exception e = true).
Proof.
  intros H. unfold outcomes_read. destruct nb; simpl program in *.
  - do 8 (script_case s ltac:(nothing_swallowed H) ltac:(nothing_swallowed H)).
    nothing_swallowed H.
  - destruct s as [|[e0|] s].
    + nothing_swallowed H.
    + destruct e0; [nothing_swallowed H | nothing_swallowed H
                    | nothing_swallowed H |].
      do 26 (script_case s ltac:(nothing_swallowed H) ltac:(nothing_swallowed H)).
      nothing_swallowed H.
    + do 24 (script_case s ltac:(nothing_swallowed H) ltac:(nothing_swallowed H)).
      nothing_swallowed H.
  - destruct s as [|[e0|] s].
    + nothing_swallowed H.
    + destruct e0; [nothing_swallowed H | nothing_swallowed H
                    | nothing_swallowed H |].
      do 5 (script_case s ltac:(nothing_swallowed H) ltac:(nothing_swallowed H)).
      nothing_swallowed H.
    + do 3 (script_case s ltac:(nothing_swallowed H) ltac:(nothing_swallowed H)).
      nothing_swallowed H.
Qed.

Lemma nothing_swallowed_but_first_witness :
  outcome (program intl_boundary) [Some (Exception "EEException"); None] = Ok tt /\
  Forall (fun o => o = None)
         (tl (outcomes_read (program intl_boundary)
                            [Some (Exception "EEException"); None])).
Proof.
  split; [reflexivity |].
  apply (nothing_swallowed_but_first intl_boundary
           [Some (Exception "EEException"); None]).
  reflexivity.
Defined.

Lemma constructed_app (t1 t2 : list event) :
  constructed (t1 ++ t2) = constructed t1 ++ constructed t2.
Proof.
  induction t1 as [|ev t1 IH]; [reflexivity |].
  destruct ev; simpl; now rewrite ?IH.
Qed.

Lemma decks_app (t1 t2 : list event) : decks (t1 ++ t2) = decks t1 ++ decks t2.
Proof.
  induction t1 as [|ev t1 IH]; [reflexivity |].
  destruct ev; simpl; now rewrite ?IH.
Qed.

Lemma shown_app (t1 t2 : list event) : shown (t1 ++ t2) = shown t1 ++ shown t2.
Proof.
  induction t1 as [|ev t1 IH]; [reflexivity |].
  destruct ev; simpl; now rewrite ?IH.
Qed.

Lemma credential_calls_build_nothing (tr : list event) :
  constructed (credential_calls tr) = [] /\ decks (credential_calls tr) = [].
Proof.
  unfold credential_calls.
  induction tr as [|ev tr IH]; [split; reflexivity |].
  destruct ev; simpl; exact IH.
Qed.

Lemma pipeline_layers (d : pdk.Deck) :
  constructed (pipeline d) = pdk.layers d /\ decks (pipeline d) = [d].
Proof.
  unfold pipeline. rewrite constructed_app, decks_app. simpl.
  rewrite app_nil_r. split.
  - induction (pdk.layers d) as [|l ls IH]; simpl; [reflexivity | now rewrite IH].
  - induction (pdk.layers d) as [|l ls IH]; simpl; [reflexivity | exact IH].
Qed.

Lemma pipelines_layers (ds : list pdk.Deck) :
  constructed (flat_map pipeline ds) = flat_map pdk.layers ds /\
  decks (flat_map pipeline ds) = ds.
Proof.
  induction ds as [|d ds [IH1 IH2]]; simpl; [split; reflexivity |].
  rewrite constructed_app, decks_app, IH1, IH2.
  destruct (pipeline_layers d) as [-> ->]. split; reflexivity.
Qed.

Lemma increasing_lower_bound (l : list nat) (x y : nat) :
  increasing (x :: l) = true -> In y l -> x < y.
Proof.
  revert x. induction l as [|z l IH]; intros x H Hy; [contradiction |].
  simpl in H. apply andb_prop in H as [Hxz Hl]. apply Nat.ltb_lt in Hxz.
  destruct Hy as [<- | Hy]; [exact Hxz |].
  specialize (IH z Hl Hy). lia.
Qed.

Lemma increasing_NoDup (l : list nat) : increasing l = true -> List.NoDup l.
Proof.
  induction l as [|x l IH]; intros H; [constructor |].
  constructor.
  - intros Hin. pose proof (increasing_lower_bound l x x H Hin). lia.
  - apply IH. destruct l as [|y l]; [reflexivity |].
    simpl in H. now apply andb_prop in H as [_ H].
Qed.

Lemma completed_identities (nb : notebook) (tr : list event) :
  In tr (completed_traces nb) -> increasing (identities tr) = true.
Proof. intros H. destruct nb; in_cases H; vm_compute; reflexivity. Qed.

(** X10.  In every run that completes, what is constructed is displayed and
    nothing is displayed twice: the layers constructed are exactly the layers
    of the widgets shown, in order; the widgets constructed are exactly the
    widgets shown; and all these objects are distinct, so that every layer
    belongs to one widget only. *)
Theorem constructed_is_displayed (nb : notebook) (s : list (option exn)) :
  outcome (program nb) s = Ok tt ->
  let tr := trace (program nb) s in
  constructed tr = flat_map pdk.layers (shown tr) /\
  decks tr = shown tr /\
  List.NoDup (identities tr).
Proof.
  intros H tr. apply completed_trace in H. fold tr in H.
  pose proof (completed_pipelined nb tr H) as [E _].
  split; [| split].
  - rewrite E at 1. rewrite constructed_app.
    rewrite (proj1 (credential_calls_build_nothing tr)).
    apply pipelines_layers.
  - rewrite E at 1. rewrite decks_app.
    rewrite (proj2 (credential_calls_build_nothing tr)).
    apply pipelines_layers.
  - apply increasing_NoDup. now apply (completed_identities nb).
Qed.

Lemma constructed_is_displayed_witness :
  outcome (program power_plants) stored_credentials = Ok tt /\
  List.NoDup (identities (trace (program power_plants) stored_credentials)).
Proof.
  split; [reflexivity |].
  apply (constructed_is_displayed power_plants stored_credentials). reflexivity.
Defined.
